(** * The unused-function finder of go-oracle-tools (package [unused])

    A shallow embedding of [unused/unused_func_finder.go] together with the
    properties its specification states about it.

    Go strings are byte sequences and are modelled by [string] (a list of
    8-bit [ascii]).  The finder's private maps are stdpp finite maps and sets.
    Everything the finder obtains from outside the package (the environment,
    the file system, the Go parser and the oracle) is gathered in a [World]. *)

From Stdlib Require Import ZArith Ascii String List Bool Lia.
From stdpp Require Import base option list gmap strings.

Local Open Scope string_scope.
Local Open Scope list_scope.

(** ** The parts of Go's [strings] package the finder uses *)

(** [s[n:]] for [0 <= n <= len(s)]. *)
Fixpoint string_drop (n : nat) (s : string) : string :=
  match n, s with
  | O, _ => s
  | S n', String _ s' => string_drop n' s'
  | S _, EmptyString => EmptyString
  end.

(** [strings.HasPrefix(s, prefix)]. *)
Fixpoint HasPrefix (s prefix : string) {struct prefix} : bool :=
  match prefix, s with
  | EmptyString, _ => true
  | String _ _, EmptyString => false
  | String a p', String b s' => if Ascii.eqb a b then HasPrefix s' p' else false
  end.

(** [strings.HasSuffix(s, suffix)]:
    [len(s) >= len(suffix) && s[len(s)-len(suffix):] == suffix]. *)
Definition HasSuffix (s suffix : string) : bool :=
  (String.length suffix <=? String.length s)%nat
  && String.eqb (string_drop (String.length s - String.length suffix) s) suffix.

(** [strings.TrimPrefix(s, prefix)]. *)
Definition TrimPrefix (s prefix : string) : string :=
  if HasPrefix s prefix then string_drop (String.length prefix) s else s.

(** [strings.Contains(s, substr)]: [substr] occurs somewhere in [s]. *)
Fixpoint Contains (s substr : string) : bool :=
  HasPrefix s substr
  || match s with
     | EmptyString => false
     | String _ s' => Contains s' substr
     end.

(** [strings.LastIndex(s, sep)]: the index of the last occurrence of [sep] in
    [s], or [-1] when there is none. *)
Fixpoint LastIndex (s sep : string) : Z :=
  match s with
  | EmptyString => if String.eqb sep EmptyString then 0 else -1
  | String _ s' =>
      let r := LastIndex s' sep in
      if (0 <=? r)%Z then (r + 1)%Z
      else if HasPrefix s sep then 0%Z else (-1)%Z
  end.

(** The slice expression [s[i:]]. *)
Definition slice_from (s : string) (i : Z) : string := string_drop (Z.to_nat i) s.

(** [strings.Split(s, sep)] for a one-byte separator: always at least one
    field. *)
Fixpoint split_byte (sep : ascii) (s : string) : list string :=
  match s with
  | EmptyString => [EmptyString]
  | String a s' =>
      if Ascii.eqb a sep then EmptyString :: split_byte sep s'
      else match split_byte sep s' with
           | [] => [String a EmptyString]
           | w :: ws => String a w :: ws
           end
  end.

(** [filepath.ListSeparator] and [filepath.Separator] on Unix. *)
Definition ListSeparator : ascii := ":"%char.
Definition Separator : string := "/".

(** [filepath.SplitList(path)]: the empty string yields the empty list. *)
Definition SplitList (path : string) : list string :=
  if String.eqb path EmptyString then [] else split_byte ListSeparator path.

(** An indexing expression [l[i]]; [None] stands for the run-time panic
    "index out of range". *)
Definition index {A : Type} (l : list A) (i : Z) : option A :=
  if ((0 <=? i)%Z && (i <? Z.of_nat (List.length l))%Z)%bool
  then l !! Z.to_nat i else None.

(** Go's [int] is a 64-bit two's-complement integer. *)
Definition wrap_int (z : Z) : Z := ((z + 2 ^ 63) mod 2 ^ 64 - 2 ^ 63)%Z.

(** [s] occurs in [t] as a contiguous run of bytes. *)
Definition substring_of (s t : string) : Prop :=
  exists pre post : string, t = pre +:+ s +:+ post.

(** ** Data model *)

(** [UnusedThing]: a declaration record, and also a finding. *)
Record UnusedThing : Type := mkUnusedThing { Name : string; File : string }.

Module serial.
(** [serial.CallGraph] of [golang.org/x/tools/oracle/serial]: one node of
    the call graph the oracle reports. *)
Record CallGraph : Type := mkCallGraph {
  Name : string;          (* full name of the function *)
  Pos : string;           (* location of the function *)
  Children : list Z       (* indices of the child nodes *)
}.
End serial.

(** Go [error] values.  Each constructor stands for one way the package (or a
    library it calls) builds an error. *)
Inductive error : Type :=
  | LibError (msg : string)          (* an error of parser, filepath or oracle *)
  | ErrNoFiles                       (* "no files supplied as arguments" *)
  | ErrGopathNotSet                  (* "GOPATH not set" *)
  | ErrMainPkgPath (cause : error)   (* "error getting main package path: %v" *)
  | ErrCdTryAgain (root : string)    (* "cd %q and try again" *)
  | ErrNoCallgraph.                  (* "no callgraph present in oracle results" *)

(** Lines written to the log writer, one constructor per format string. *)
Inductive LogLine : Type :=
  | LFoundPkg (pkg : string)
  | LIgnoringPath (path : string)
  | LMustSupplyFile
  | LGopathNotSet
  | LCollecting
  | LErrReadingDir (dir : string) (e : error)
  | LErrReadingFile (file : string) (e : error)
  | LContinuing
  | LParsed (n : Z)
  | LRunningCallgraph (pkgs : list string)
  | LOracleError (e : error)
  | LScanning
  | LBlank.

(** The finder.  [LogWriter] holds what has been written to the writer so
    far, oldest line first. *)
Record UnusedFuncFinder : Type := mkFinder {
  Callgraph : option (list serial.CallGraph);   (* [None] is the nil slice *)
  Ignore : string;
  Verbose : bool;
  IncludeAll : bool;
  LogWriter : list LogLine;
  CallgraphJSON : string;
  Idents : bool;
  ExportedOnly : bool;
  SkipMethods : bool;
  filesByCaller : gmap string (list string);
  pkgs : gset string;
  funcs : list UnusedThing;
  numFilesRead : Z
}.

(** [NewUnusedFunctionFinder]; [os.Stderr] starts out with nothing written. *)
Definition NewUnusedFunctionFinder : UnusedFuncFinder :=
  {| Callgraph := None; Ignore := EmptyString; Verbose := false; IncludeAll := false;
     LogWriter := []; CallgraphJSON := EmptyString; Idents := false;
     ExportedOnly := false; SkipMethods := false;
     filesByCaller := ∅; pkgs := ∅; funcs := []; numFilesRead := 0 |}.

Definition set_Callgraph (cg : option (list serial.CallGraph)) (u : UnusedFuncFinder) :=
  mkFinder cg (Ignore u) (Verbose u) (IncludeAll u) (LogWriter u) (CallgraphJSON u)
    (Idents u) (ExportedOnly u) (SkipMethods u) (filesByCaller u) (pkgs u) (funcs u)
    (numFilesRead u).
Definition set_LogWriter (w : list LogLine) (u : UnusedFuncFinder) :=
  mkFinder (Callgraph u) (Ignore u) (Verbose u) (IncludeAll u) w (CallgraphJSON u)
    (Idents u) (ExportedOnly u) (SkipMethods u) (filesByCaller u) (pkgs u) (funcs u)
    (numFilesRead u).
Definition set_filesByCaller (m : gmap string (list string)) (u : UnusedFuncFinder) :=
  mkFinder (Callgraph u) (Ignore u) (Verbose u) (IncludeAll u) (LogWriter u)
    (CallgraphJSON u) (Idents u) (ExportedOnly u) (SkipMethods u) m (pkgs u) (funcs u)
    (numFilesRead u).
Definition set_pkgs (p : gset string) (u : UnusedFuncFinder) :=
  mkFinder (Callgraph u) (Ignore u) (Verbose u) (IncludeAll u) (LogWriter u)
    (CallgraphJSON u) (Idents u) (ExportedOnly u) (SkipMethods u) (filesByCaller u) p
    (funcs u) (numFilesRead u).
Definition set_funcs (f : list UnusedThing) (u : UnusedFuncFinder) :=
  mkFinder (Callgraph u) (Ignore u) (Verbose u) (IncludeAll u) (LogWriter u)
    (CallgraphJSON u) (Idents u) (ExportedOnly u) (SkipMethods u) (filesByCaller u)
    (pkgs u) f (numFilesRead u).
Definition set_numFilesRead (n : Z) (u : UnusedFuncFinder) :=
  mkFinder (Callgraph u) (Ignore u) (Verbose u) (IncludeAll u) (LogWriter u)
    (CallgraphJSON u) (Idents u) (ExportedOnly u) (SkipMethods u) (filesByCaller u)
    (pkgs u) (funcs u) n.

(** ** The pure core: caller index and unused-set computation *)

(** [isInCG]: is the declaration [f] reachable according to the caller index? *)
Definition isInCG (uff : UnusedFuncFinder) (f : UnusedThing) : bool :=
  match filesByCaller uff !! Name f with
  | None => false
  | Some files => existsb (fun path => Contains path (File f)) files
  end.

(** [computeUnusedFuncs]: the loop appends every declaration that is not in
    the call graph, in the order of [uff.funcs]. *)
Definition computeUnusedFuncs (uff : UnusedFuncFinder) : list UnusedThing :=
  fold_left
    (fun unused f => if negb (isInCG uff f) then unused ++ [f] else unused)
    (funcs uff) [].

(** One iteration of the loop of [buildFileMap]. *)
Definition addEntry (m : gmap string (list string)) (entry : serial.CallGraph)
  : gmap string (list string) :=
  let idx := (LastIndex (serial.Name entry) "." + 1)%Z in
  if negb (idx =? 0)%Z then
    let short := slice_from (serial.Name entry) idx in
    <[short := default [] (m !! short) ++ [serial.Pos entry]]> m
  else m.

(** [buildFileMap]; ranging over a nil slice does nothing. *)
Definition buildFileMap (uff : UnusedFuncFinder) : UnusedFuncFinder :=
  set_filesByCaller
    (fold_left addEntry (default [] (Callgraph uff)) (filesByCaller uff)) uff.

(** The test the collector applies to a declared name (the [switch] inside
    the [ast.Inspect] callback): [true] when the name is skipped. *)
Definition excluded (s : string) : bool :=
  Contains s "Test" || String.eqb s "main" || String.eqb s "init" || String.eqb s "test".

(** ** The world outside the package *)

(** What [ast.Inspect] hands to its callback: a function declaration with its
    name, or any other node (including the [nil] that closes a subtree). *)
Inductive Node : Type :=
  | FuncDecl (name : string)
  | OtherNode.

(** The result of [parser.ParseFile] as far as the finder looks at it:
    [f.Name.Name] and the nodes of [f] in the order [ast.Inspect] visits
    them. *)
Record ParsedFile : Type := mkParsedFile {
  pkgName : string;
  nodes : list Node
}.

(** One call of the [filepath.Walk] callback: the path, whether
    [info.IsDir()] holds, and the error [Walk] passes in. *)
Record WalkEntry : Type := mkWalkEntry {
  wPath : string;
  wIsDir : bool;
  wErr : option error
}.

Record World : Type := mkWorld {
  (* os.Getenv("GOPATH") *)
  GOPATH : string;
  (* os.Stat(filename): err == nil && fi.IsDir() *)
  statIsDir : string -> bool;
  (* the entries filepath.Walk(dirname, _) offers to its callback, in the
     lexical order of the walk, as long as the callback returns nil *)
  walkEntries : string -> list WalkEntry;
  (* parser.ParseFile(fset, filename, nil, 0) *)
  ParseFile : string -> ParsedFile + error;
  (* filepath.Abs, filepath.Join, filepath.Dir *)
  Abs : string -> string + error;
  Join : string -> string -> string;
  Dir : string -> string;
  (* oracle.Query(pkgs, "callgraph", ...) followed by res.Serial().Callgraph;
     [inl None] is a result whose Callgraph is nil *)
  Query : list string -> option (list serial.CallGraph) + error;
  (* the transformation of the collected declarations that identifiers-only
     mode returns *)
  identsOf : list UnusedThing -> list UnusedThing
}.

(** Calls that leave the package, recorded in the order they happen. *)
Inductive Event : Type :=
  | EvStat (path : string)
  | EvWalk (dir : string)
  | EvParseFile (path : string)
  | EvAbs (path : string)
  | EvQuery (pkgs : list string).

Definition is_query (e : Event) : bool :=
  match e with EvQuery _ => true | _ => false end.

Definition is_file_access (e : Event) : bool :=
  match e with EvQuery _ => false | _ => true end.

(** ** A state monad with panics *)

Record State : Type := mkState {
  finder : UnusedFuncFinder;
  trace : list Event
}.

Inductive Outcome (A : Type) : Type :=
  | Done (a : A) (s : State)
  | Panic (s : State).
Arguments Done {A} a s.
Arguments Panic {A} s.

Definition M (A : Type) : Type := State -> Outcome A.

Definition ret {A : Type} (a : A) : M A := fun s => Done a s.
Definition bind {A B : Type} (m : M A) (k : A -> M B) : M B := fun s =>
  match m s with
  | Done a s' => k a s'
  | Panic s' => Panic s'
  end.

Declare Scope go_scope.
Delimit Scope go_scope with go.
Bind Scope go_scope with M.
Notation "x <- m ;; k" := (bind m (fun x => k))
  (at level 100, m at next level, k at level 200, right associativity) : go_scope.
Notation "m ;; k" := (bind m (fun _ => k))
  (at level 100, k at level 200, right associativity) : go_scope.
Local Open Scope go_scope.

Definition panic {A : Type} : M A := fun s => Panic s.
Definition getFinder : M UnusedFuncFinder := fun s => Done (finder s) s.
Definition modifyFinder (f : UnusedFuncFinder -> UnusedFuncFinder) : M unit :=
  fun s => Done tt (mkState (f (finder s)) (trace s)).
Definition emit (e : Event) : M unit :=
  fun s => Done tt (mkState (finder s) (trace s ++ [e])).

(** A Go [for _, x := range xs] loop whose body may return early with an
    error. *)
Fixpoint rangeUntilErr {A : Type} (body : A -> M (option error)) (xs : list A)
  : M (option error) :=
  match xs with
  | [] => ret None
  | x :: rest =>
      r <- body x ;;
      match r with
      | Some e => ret (Some e)
      | None => rangeUntilErr body rest
      end
  end.

(** A Go [for _, x := range xs] loop that runs to the end. *)
Fixpoint rangeAll {A : Type} (body : A -> M unit) (xs : list A) : M unit :=
  match xs with
  | [] => ret tt
  | x :: rest => body x ;; rangeAll body rest
  end.

(** ** The finder's methods *)

Section Finder.
Variable w : World.

(** [Logf]: writes only when [Verbose]. *)
Definition Logf (l : LogLine) : M unit :=
  modifyFinder (fun u =>
    if Verbose u then set_LogWriter (LogWriter u ++ [l]) u else u).

(** [Errorf]: always writes. *)
Definition Errorf (l : LogLine) : M unit :=
  modifyFinder (fun u => set_LogWriter (LogWriter u ++ [l]) u).

Definition AddPkg (pkg : string) : M unit :=
  modifyFinder (fun u => set_pkgs ({[pkg]} ∪ pkgs u) u) ;;
  Logf (LFoundPkg pkg).

(** [pkgsAsArray]: Go leaves the iteration order of a map unspecified;
    [elements] fixes one. *)
Definition pkgsAsArray (u : UnusedFuncFinder) : list string := elements (pkgs u).

Definition getCallgraphFromOracle : M (option error) :=
  u <- getFinder ;;
  emit (EvQuery (pkgsAsArray u)) ;;
  match Query w (pkgsAsArray u) with
  | inr err => ret (Some err)
  | inl None => ret (Some ErrNoCallgraph)
  | inl (Some cg) =>
      modifyFinder (set_Callgraph (Some cg)) ;;
      ret None
  end.

(** The loop of [getFullPkgName] over the GOPATH roots. *)
Fixpoint findRoot (abs : string) (goPaths : list string) : option string :=
  match goPaths with
  | [] => None
  | p :: rest =>
      let p' := Join w p "src" +:+ Separator in
      if negb (HasPrefix abs p') then findRoot abs rest
      else Some (Dir w (TrimPrefix abs p'))
  end.

Definition getFullPkgName (filename : string) : M (string * option error) :=
  emit (EvAbs filename) ;;
  match Abs w filename with
  | inr err => ret (EmptyString, Some err)
  | inl abs =>
      let goPaths := SplitList (GOPATH w) in
      match findRoot abs goPaths with
      | Some pkg => ret (pkg, None)
      | None =>
          match index goPaths (Z.of_nat (List.length goPaths) - 1) with
          | Some root => ret (EmptyString, Some (ErrCdTryAgain root))
          | None => panic
          end
      end
  end.

(** The callback handed to [ast.Inspect]. *)
Definition inspectNode (filename : string) (n : Node) : M unit :=
  let s := match n with FuncDecl name => name | OtherNode => EmptyString end in
  if negb (String.eqb s EmptyString) then
    if excluded s then ret tt
    else modifyFinder (fun u => set_funcs (funcs u ++ [mkUnusedThing s filename]) u)
  else ret tt.

Definition readFuncsAndImportsFromFile (filename : string) : M (option error) :=
  emit (EvParseFile filename) ;;
  match ParseFile w filename with
  | inr err => ret (Some err)
  | inl f =>
      u <- getFinder ;;
      r <- (if String.eqb (pkgName f) "main" || IncludeAll u then
              res <- getFullPkgName filename ;;
              let '(pkg, err) := res in
              match err with
              | Some e => ret (Some (ErrMainPkgPath e))
              | None => AddPkg pkg ;; ret None
              end
            else ret None) ;;
      match r with
      | Some e => ret (Some e)
      | None =>
          rangeAll (inspectNode filename) (nodes f) ;;
          modifyFinder (fun u => set_numFilesRead (wrap_int (numFilesRead u + 1)) u) ;;
          ret None
      end
  end.

Definition isDir (filename : string) : M bool :=
  emit (EvStat filename) ;;
  ret (statIsDir w filename).

Definition canReadSourceFile (filename : string) : M bool :=
  u <- getFinder ;;
  if negb (String.eqb (Ignore u) EmptyString) && Contains filename (Ignore u) then
    Logf (LIgnoringPath filename) ;;
    ret false
  else if negb (HasSuffix filename ".go") then ret false
  else ret true.

(** The callback [readDir] hands to [filepath.Walk]. *)
Definition walkFn (e : WalkEntry) : M (option error) :=
  match wErr e with
  | None =>
      if negb (wIsDir e) then
        ok <- canReadSourceFile (wPath e) ;;
        if ok then readFuncsAndImportsFromFile (wPath e) else ret None
      else ret None
  | Some err => ret (Some err)
  end.

(** [readDir]: [filepath.Walk] stops at the first entry for which the
    callback returns an error and returns that error. *)
Definition readDir (dirname : string) : M (option error) :=
  emit (EvWalk dirname) ;;
  rangeUntilErr walkFn (walkEntries w dirname).

(** Modelled from the spec: [findUnusedIdents] is defined in a file of the
    package that is not among the sources.  Identifier mode "returns
    collected declarations directly (or some transformation thereof) without
    invoking the Reachability Graph Source at all". *)
Definition findUnusedIdents : M (option (list UnusedThing) * option error) :=
  u <- getFinder ;;
  ret (Some (identsOf w (funcs u)), None).

(** The body of the loop of [Run] over its arguments. *)
Definition readArg (filename : string) : M unit :=
  d <- isDir filename ;;
  if d then
    r <- readDir filename ;;
    match r with
    | Some err => Errorf (LErrReadingDir filename err) ;; Errorf LContinuing
    | None => ret tt
    end
  else
    ok <- canReadSourceFile filename ;;
    if ok then
      r <- readFuncsAndImportsFromFile filename ;;
      match r with
      | Some err => Errorf (LErrReadingFile filename err) ;; Errorf LContinuing
      | None => ret tt
      end
    else ret tt.

(** [Run]; the first component of the result is [None] for a nil slice. *)
Definition Run (fileArgs : list string) : M (option (list UnusedThing) * option error) :=
  if (Z.of_nat (List.length fileArgs) =? 0)%Z then
    Errorf LMustSupplyFile ;;
    ret (None, Some ErrNoFiles)
  else if String.eqb (GOPATH w) EmptyString then
    Errorf LGopathNotSet ;;
    ret (None, Some ErrGopathNotSet)
  else
    Logf LCollecting ;;
    rangeAll readArg fileArgs ;;
    u <- getFinder ;;
    Logf (LParsed (numFilesRead u)) ;;
    u <- getFinder ;;
    if Idents u then findUnusedIdents
    else
      u <- getFinder ;;
      Logf (LRunningCallgraph (pkgsAsArray u)) ;;
      r <- getCallgraphFromOracle ;;
      match r with
      | Some err =>
          Errorf (LOracleError err) ;;
          ret (None, Some err)
      | None =>
          modifyFinder buildFileMap ;;
          Logf LScanning ;;
          u <- getFinder ;;
          let unusedFuncs := computeUnusedFuncs u in
          Logf LBlank ;;
          ret (Some unusedFuncs, None)
      end.

End Finder.

(** ** Definitions used to state the properties *)

(** The short name as the specification words it: the substring of the
    qualified name after the last package separator, when there is one. *)
Fixpoint afterLastSep (qn : string) : option string :=
  match qn with
  | EmptyString => None
  | String a rest =>
      match afterLastSep rest with
      | Some t => Some t
      | None => if Ascii.eqb a "."%char then Some rest else None
      end
  end.

(** The positions of the edges of [cg] whose short name is [k], in the order
    of [cg]. *)
Definition positionsFor (k : string) (cg : list serial.CallGraph) : list string :=
  serial.Pos <$> filter (fun e => afterLastSep (serial.Name e) = Some k) cg.

(** The caller index after the positions [ps] were appended to entry [old]. *)
Definition appended (old : option (list string)) (ps : list string)
  : option (list string) :=
  match old, ps with
  | None, [] => None
  | _, _ => Some (default [] old ++ ps)
  end.

(** The names of the function declarations among the nodes of a file. *)
Fixpoint declNames (ns : list Node) : list string :=
  match ns with
  | [] => []
  | FuncDecl name :: rest => name :: declNames rest
  | OtherNode :: rest => declNames rest
  end.

(** The declaration records a successfully read file contributes. *)
Definition collectedFrom (filename : string) (f : ParsedFile) : list UnusedThing :=
  (fun s => mkUnusedThing s filename)
    <$> List.filter (fun s => negb (String.eqb s EmptyString) && negb (excluded s))
          (declNames f.(nodes)).

(** The state an outcome ends in. *)
Definition final_state {A : Type} (o : Outcome A) : State :=
  match o with
  | Done _ s => s
  | Panic s => s
  end.

(** The property shared by every step of the collection phase: the options
    and the caller index are left alone, declarations are only appended and
    none of them has an excluded name, and the oracle is not queried. *)
Record collects (s s' : State) : Prop := mkCollects {
  col_Idents : Idents (finder s') = Idents (finder s);
  col_Verbose : Verbose (finder s') = Verbose (finder s);
  col_IncludeAll : IncludeAll (finder s') = IncludeAll (finder s);
  col_Ignore : Ignore (finder s') = Ignore (finder s);
  col_Callgraph : Callgraph (finder s') = Callgraph (finder s);
  col_filesByCaller : filesByCaller (finder s') = filesByCaller (finder s);
  col_funcs : exists added,
    funcs (finder s') = funcs (finder s) ++ added
    /\ Forall (fun d => excluded (Name d) = false) added;
  col_trace : exists evs,
    trace s' = trace s ++ evs /\ forallb is_file_access evs = true
}.

(** [m] always ends, without a panic, in a state related to the one it
    started from. *)
Definition steps {A : Type} (R : State -> State -> Prop) (m : M A) : Prop :=
  forall s, exists a s', m s = Done a s' /\ R s s'.

(** The two phases of [Run] that follow its sanity checks: the collection
    loop up to the "Parsed ... source files" line, and the oracle phase from
    the "Running callgraph analysis" line on. *)
Definition collectPhase (w : World) (fileArgs : list string) : M unit :=
  Logf LCollecting ;;
  rangeAll (readArg w) fileArgs ;;
  u <- getFinder ;;
  Logf (LParsed (numFilesRead u)).

Definition oraclePhase (w : World) : M (option (list UnusedThing) * option error) :=
  u <- getFinder ;;
  Logf (LRunningCallgraph (pkgsAsArray u)) ;;
  r <- getCallgraphFromOracle w ;;
  match r with
  | Some err =>
      Errorf (LOracleError err) ;;
      ret (None, Some err)
  | None =>
      modifyFinder buildFileMap ;;
      Logf LScanning ;;
      u <- getFinder ;;
      let unusedFuncs := computeUnusedFuncs u in
      Logf LBlank ;;
      ret (Some unusedFuncs, None)
  end.

(** [canReadSourceFile] without its log line: the path passes the ignore
    filter and carries the source-file extension. *)
Definition eligible (u : UnusedFuncFinder) (filename : string) : bool :=
  negb (negb (String.eqb (Ignore u) EmptyString) && Contains filename (Ignore u))
  && HasSuffix filename ".go".

(** ** Two small worlds to run the finder in *)

Module Demo.

Definition main_go : string := "/go/src/app/main.go".
Definition a_go : string := "/go/src/app/lib/a.go".
Definition b_go : string := "/go/src/app/lib/b.go".
Definition util_go : string := "/go/src/app/util.go".
Definition lib_dir : string := "/go/src/app/lib".

(** [filepath.Dir] on the clean absolute paths used here. *)
Definition dirOf (p : string) : string :=
  let i := LastIndex p "/" in
  if (i <=? 0)%Z then "/" else String.substring 0 (Z.to_nat i) p.

Definition parse (p : string) : ParsedFile + error :=
  if String.eqb p main_go then
    inl (mkParsedFile "main"
           [OtherNode; FuncDecl "main"; OtherNode; FuncDecl "zeta";
            FuncDecl "TestZeta"; FuncDecl "alpha"; FuncDecl "init"])
  else if String.eqb p util_go then
    inl (mkParsedFile "app" [FuncDecl "used"; FuncDecl "test"; FuncDecl "idle"])
  else if String.eqb p b_go then
    inl (mkParsedFile "lib" [FuncDecl "helper"])
  else if String.eqb p a_go then inr (LibError "a.go:1:1: expected 'package'")
  else inr (LibError "no such file").

Definition graph : list serial.CallGraph :=
  [serial.mkCallGraph "app.main" "/go/src/app/main.go:3:6" [1%Z];
   serial.mkCallGraph "app.used" "/go/src/app/util.go:5:6" [];
   serial.mkCallGraph "runtime" "-" [];
   serial.mkCallGraph "app.alpha" "/go/src/other/x.go:9:6" []].

(** A GOPATH with two roots, one directory with a file that does not
    parse, and an oracle that answers with [graph]. *)
Definition world : World :=
  {| GOPATH := "/opt/go:/go";
     statIsDir := fun p => String.eqb p lib_dir;
     walkEntries := fun d =>
       if String.eqb d lib_dir then
         [mkWalkEntry lib_dir true None;
          mkWalkEntry a_go false None;
          mkWalkEntry b_go false None]
       else [mkWalkEntry d false (Some (LibError "lstat: no such file"))];
     ParseFile := parse;
     Abs := fun p => inl p;
     Join := fun a b => a +:+ "/" +:+ b;
     Dir := dirOf;
     Query := fun _ => inl (Some graph);
     identsOf := fun l => l |}.

(** The same world with GOPATH unset. *)
Definition world_no_gopath : World :=
  mkWorld EmptyString (statIsDir world) (walkEntries world) (ParseFile world)
    (Abs world) (Join world) (Dir world) (Query world) (identsOf world).

(** The same world with a working directory outside every GOPATH root. *)
Definition world_elsewhere : World :=
  mkWorld (GOPATH world) (statIsDir world) (walkEntries world) (ParseFile world)
    (fun p => inl ("/tmp" +:+ p)) (Join world) (Dir world) (Query world)
    (identsOf world).

Definition start : State := mkState NewUnusedFunctionFinder [].

(** A finder whose [Callgraph] field was set before [Run]. *)
Definition supplied : list serial.CallGraph :=
  [serial.mkCallGraph "app.zeta" "/go/src/app/main.go:7:6" []].
Definition start_supplied : State :=
  mkState (set_Callgraph (Some supplied) NewUnusedFunctionFinder) [].

Definition start_idents : State :=
  mkState
    (mkFinder None EmptyString false false [] EmptyString true false false ∅ ∅ [] 0)
    [].

End Demo.

(** ** The remaining functions of the package *)

(** [UnusedThing.String]: [fmt.Sprintf("%s in '%s'", ut.Name, ut.File)] when
    the file is known, the bare name otherwise. *)
Definition UnusedThing_String (ut : UnusedThing) : string :=
  if negb (String.eqb (File ut) EmptyString)
  then Name ut +:+ " in '" +:+ File ut +:+ "'"
  else Name ut.

(** [strings.ContainsRune(s, r)] for a rune below [utf8.RuneSelf], which is
    one byte of the string. *)
Fixpoint ContainsRune (s : string) (r : ascii) : bool :=
  match s with
  | EmptyString => false
  | String a s' => if Ascii.eqb a r then true else ContainsRune s' r
  end.

(** [isNotStandardLibrary]. *)
Definition isNotStandardLibrary (pkg : string) : bool := ContainsRune pkg "."%char.

(** ** Further definitions used to state properties *)

(** The lines [Errorf] writes; all others come from [Logf]. *)
Definition is_error_line (l : LogLine) : bool :=
  match l with
  | LMustSupplyFile | LGopathNotSet | LErrReadingDir _ _ | LErrReadingFile _ _
  | LContinuing | LOracleError _ => true
  | _ => false
  end.

(** What a stretch of a run may do to the log, the packages and the parser:
    the filters stay as they are, packages are only added, the log is only
    appended to, with error lines alone when [Verbose] is off, and only paths
    that pass [canReadSourceFile] are handed to the parser. *)
Record audited (s s' : State) : Prop := mkAudited {
  au_Ignore : Ignore (finder s') = Ignore (finder s);
  au_Verbose : Verbose (finder s') = Verbose (finder s);
  au_pkgs : pkgs (finder s) ⊆ pkgs (finder s');
  au_log : exists lines,
    LogWriter (finder s') = LogWriter (finder s) ++ lines
    /\ (Verbose (finder s) = false -> forallb is_error_line lines = true);
  au_trace : exists evs,
    trace s' = trace s ++ evs
    /\ forall p, In (EvParseFile p) evs -> eligible (finder s) p = true
}.

(** [m] ends without a panic, with a value and a final state that [Q]
    relates to the initial state. *)
Definition yields {A : Type} (m : M A) (Q : State -> A -> State -> Prop) : Prop :=
  forall s, exists a s', m s = Done a s' /\ Q s a s'.

(** A string without the byte [c]. *)
Fixpoint free_of (c : ascii) (s : string) : bool :=
  match s with
  | EmptyString => true
  | String a s' => negb (Ascii.eqb a c) && free_of c s'
  end.

(** The data of the finder that reading files changes. *)
Definition same_data (s s' : State) : Prop :=
  funcs (finder s') = funcs (finder s)
  /\ pkgs (finder s') = pkgs (finder s)
  /\ numFilesRead (finder s') = numFilesRead (finder s)
  /\ Ignore (finder s') = Ignore (finder s).

(** A declaration record that stands for a function really declared, under a
    name the collector keeps, in the file it names. *)
Definition declared_in (w : World) (d : UnusedThing) : Prop :=
  exists f,
    ParseFile w (File d) = inl f
    /\ In (FuncDecl (Name d)) (nodes f)
    /\ Name d <> EmptyString
    /\ excluded (Name d) = false.

(** Every declaration a stretch of a run adds is [declared_in] a file the
    stretch handed to the parser. *)
Definition sourced (w : World) (s s' : State) : Prop :=
  exists added evs,
    funcs (finder s') = funcs (finder s) ++ added
    /\ trace s' = trace s ++ evs
    /\ forall d, In d added -> declared_in w d /\ In (EvParseFile (File d)) evs.

(** Whenever [m] returns, the final state is related to the initial one. *)
Definition post {A : Type} (R : State -> State -> Prop) (m : M A) : Prop :=
  forall s a s', m s = Done a s' -> R s s'.

(** ** Three more worlds *)

Module DemoMore.

(** The oracle is down. *)
Definition world_oracle_down : World :=
  mkWorld (GOPATH Demo.world) (statIsDir Demo.world) (walkEntries Demo.world)
    (ParseFile Demo.world) (Abs Demo.world) (Join Demo.world) (Dir Demo.world)
    (fun _ => inr (LibError "oracle: no packages"))
    (identsOf Demo.world).

(** The oracle answers with nodes that carry no package separator. *)
Definition world_no_edges : World :=
  mkWorld (GOPATH Demo.world) (statIsDir Demo.world) (walkEntries Demo.world)
    (ParseFile Demo.world) (Abs Demo.world) (Join Demo.world) (Dir Demo.world)
    (fun _ => inl (Some [serial.mkCallGraph "runtime" "-" []]))
    (identsOf Demo.world).

(** The second entry of the directory cannot be examined. *)
Definition world_unreadable : World :=
  mkWorld (GOPATH Demo.world) (statIsDir Demo.world)
    (fun _ =>
       [mkWalkEntry Demo.lib_dir true None;
        mkWalkEntry Demo.a_go false (Some (LibError "lstat: permission denied"));
        mkWalkEntry Demo.b_go false None])
    (ParseFile Demo.world) (Abs Demo.world) (Join Demo.world) (Dir Demo.world)
    (Query Demo.world) (identsOf Demo.world).

(** GOPATH names two roots, and the sources of [Demo.world] lie under
    neither of them. *)
Definition world_outside_gopath : World :=
  mkWorld "/opt/go:/elsewhere" (statIsDir Demo.world) (walkEntries Demo.world)
    (ParseFile Demo.world) (Abs Demo.world) (Join Demo.world) (Dir Demo.world)
    (Query Demo.world) (identsOf Demo.world).

End DemoMore.

(** * Properties *)

(** ** Strings *)

Lemma HasPrefix_true (s p : string) :
  HasPrefix s p = true <-> exists t, s = p +:+ t.
Proof.
  revert s. induction p as [|a p IH]; intros s; simpl.
  - split; [intros _; exists s; reflexivity | reflexivity].
  - destruct s as [|b s].
    + split; [discriminate | intros [t Ht]; discriminate].
    + destruct (Ascii.eqb_spec a b) as [->|Hab].
      * rewrite IH. split; intros [t Ht]; exists t.
        -- now rewrite Ht.
        -- now injection Ht.
      * split; [discriminate | intros [t Ht]; injection Ht; congruence].
Qed.

(** [strings.Contains] decides [substring_of]. *)
Lemma Contains_true (s sub : string) :
  Contains s sub = true <-> substring_of sub s.
Proof.
  unfold substring_of. induction s as [|a s IH].
  - simpl. rewrite orb_false_r, HasPrefix_true. split.
    + intros [t Ht]. exists EmptyString, t. exact Ht.
    + intros [pre [post H]]. destruct pre; [now exists post | discriminate].
  - change (Contains (String a s) sub)
      with (HasPrefix (String a s) sub || Contains s sub).
    rewrite orb_true_iff, HasPrefix_true, IH. split.
    + intros [[t Ht] | [pre [post H]]].
      * exists EmptyString, t. exact Ht.
      * exists (String a pre), post. simpl. now rewrite H.
    + intros [pre [post H]]. destruct pre as [|b pre].
      * left. now exists post.
      * right. exists pre, post. simpl in H. now injection H.
Qed.

Lemma Contains_false (s sub : string) :
  Contains s sub = false <-> ~ substring_of sub s.
Proof.
  rewrite <- Contains_true. destruct (Contains s sub); split; congruence.
Qed.

Lemma Contains_dot_cons (a : ascii) (s : string) :
  Contains (String a s) "." = Ascii.eqb "."%char a || Contains s ".".
Proof.
  change (Contains (String a s) ".")
    with ((if Ascii.eqb "."%char a then true else false) || Contains s ".").
  now destruct (Ascii.eqb "."%char a).
Qed.

Lemma LastIndex_dot_cons (a : ascii) (s : string) :
  LastIndex (String a s) "." =
    if (0 <=? LastIndex s ".")%Z then (LastIndex s "." + 1)%Z
    else if Ascii.eqb "."%char a then 0%Z else (-1)%Z.
Proof.
  change (LastIndex (String a s) ".")
    with (if (0 <=? LastIndex s ".")%Z then (LastIndex s "." + 1)%Z
          else if (if Ascii.eqb "."%char a then true else false)
               then 0%Z else (-1)%Z).
  now destruct (Ascii.eqb "."%char a).
Qed.

(** What [LastIndex] returns for the package separator: [-1] when the name
    holds none, and otherwise the position that splits the name into a
    prefix, the separator, and a rest without separator. *)
Lemma LastIndex_dot (s : string) :
  (LastIndex s "." = (-1)%Z /\ Contains s "." = false)
  \/ ((0 <= LastIndex s "." < Z.of_nat (String.length s))%Z
      /\ exists pre,
           s = pre +:+ "." +:+ slice_from s (LastIndex s "." + 1)
           /\ Contains (slice_from s (LastIndex s "." + 1)) "." = false).
Proof.
  induction s as [|a s IH].
  - left. split; reflexivity.
  - rewrite Contains_dot_cons, LastIndex_dot_cons.
    destruct IH as [[Hr Hc] | [Hr [pre [Hs Hc]]]].
    + rewrite Hr, Hc.
      change (0 <=? -1)%Z with false. cbv iota.
      destruct (Ascii.eqb_spec "."%char a) as [<-|Hne].
      * right. split; [simpl String.length; lia|].
        exists EmptyString. split; [reflexivity | exact Hc].
      * left. split; reflexivity.
    + right.
      destruct (Z.leb_spec 0 (LastIndex s ".")) as [_|Hlt]; [|lia].
      assert (Hsl : slice_from (String a s) (LastIndex s "." + 1 + 1)
                    = slice_from s (LastIndex s "." + 1)).
      { unfold slice_from.
        replace (Z.to_nat (LastIndex s "." + 1 + 1))
          with (S (Z.to_nat (LastIndex s "." + 1))) by lia.
        reflexivity. }
      rewrite Hsl. split.
      * change (String.length (String a s)) with (S (String.length s)). lia.
      * exists (String a pre). split; [|exact Hc].
        change (String a s
                = String a (pre +:+ "." +:+ slice_from s (LastIndex s "." + 1))).
        now rewrite <- Hs.
Qed.

Lemma afterLastSep_None (s : string) :
  afterLastSep s = None <-> Contains s "." = false.
Proof.
  induction s as [|a s IH]; [split; reflexivity|].
  rewrite Contains_dot_cons. simpl afterLastSep.
  rewrite (Ascii.eqb_sym a "."%char).
  destruct (afterLastSep s) as [t|].
  - destruct IH as [_ IH]. destruct (Contains s ".").
    + rewrite orb_true_r. split; discriminate.
    + discriminate (IH eq_refl).
  - destruct IH as [IH _]. rewrite (IH eq_refl), orb_false_r.
    destruct (Ascii.eqb "."%char a); split; congruence.
Qed.

(** [afterLastSep] is the rest after the last separator. *)
Lemma afterLastSep_Some (s k : string) :
  afterLastSep s = Some k
  <-> exists pre, s = pre +:+ "." +:+ k /\ Contains k "." = false.
Proof.
  split.
  - revert k. induction s as [|a s IH]; intros k; [discriminate|].
    simpl afterLastSep. destruct (afterLastSep s) as [t|] eqn:E.
    + intros [= ->]. destruct (IH k eq_refl) as [pre [Hs Hc]].
      exists (String a pre). split; [simpl; now rewrite Hs | exact Hc].
    + destruct (Ascii.eqb_spec a "."%char) as [->|]; [|discriminate].
      intros [= ->]. exists EmptyString. split; [reflexivity|].
      now apply afterLastSep_None.
  - intros [pre [-> Hc]]. induction pre as [|a pre IH].
    + apply afterLastSep_None in Hc.
      change (match afterLastSep k with
              | Some t => Some t
              | None => Some k
              end = Some k).
      now rewrite Hc.
    + change (afterLastSep (String a pre +:+ "." +:+ k))
        with (match afterLastSep (pre +:+ "." +:+ k) with
              | Some t => Some t
              | None => if Ascii.eqb a "."%char
                        then Some (pre +:+ "." +:+ k) else None
              end).
      now rewrite IH.
Qed.

Lemma append_inv_r_nodot (p1 p2 k1 k2 : string) :
  p1 +:+ "." +:+ k1 = p2 +:+ "." +:+ k2 ->
  Contains k1 "." = false -> Contains k2 "." = false -> k1 = k2.
Proof.
  intros E H1 H2.
  assert (A1 : afterLastSep (p1 +:+ "." +:+ k1) = Some k1)
    by (apply afterLastSep_Some; eauto).
  assert (A2 : afterLastSep (p2 +:+ "." +:+ k2) = Some k2)
    by (apply afterLastSep_Some; eauto).
  rewrite E in A1. congruence.
Qed.

(** The key [buildFileMap] computes with [LastIndex] and a slice is the
    short name of the specification. *)
Lemma slice_is_afterLastSep (s : string) :
  afterLastSep s =
    if negb (LastIndex s "." + 1 =? 0)%Z
    then Some (slice_from s (LastIndex s "." + 1)) else None.
Proof.
  destruct (LastIndex_dot s) as [[Hr Hc] | [Hr [pre [Hs Hc]]]].
  - rewrite Hr. simpl. now apply afterLastSep_None.
  - destruct (Z.eqb_spec (LastIndex s "." + 1) 0) as [|_]; [lia|].
    simpl. apply afterLastSep_Some. eauto.
Qed.

Lemma excluded_true (s : string) :
  excluded s = true
  <-> substring_of "Test" s \/ s = "main" \/ s = "init" \/ s = "test".
Proof.
  unfold excluded.
  rewrite !orb_true_iff, Contains_true, !String.eqb_eq. tauto.
Qed.

Lemma SplitList_nil (path : string) : SplitList path = [] <-> path = EmptyString.
Proof.
  unfold SplitList. destruct (String.eqb_spec path EmptyString) as [->|Hne].
  - split; reflexivity.
  - split; [|contradiction]. destruct path as [|a p]; [contradiction|].
    simpl. destruct (Ascii.eqb a ListSeparator); [discriminate|].
    destruct (split_byte ListSeparator p); discriminate.
Qed.

(** [l[len(l)-1]] is in bounds exactly when [l] is not empty. *)
Lemma index_last {A : Type} (l : list A) :
  index l (Z.of_nat (List.length l) - 1) = last l.
Proof.
  unfold index. destruct l as [|x l].
  - reflexivity.
  - destruct (Z.leb_spec 0 (Z.of_nat (List.length (x :: l)) - 1));
      [|simpl in *; lia].
    destruct (Z.ltb_spec (Z.of_nat (List.length (x :: l)) - 1)
                (Z.of_nat (List.length (x :: l)))); [|lia].
    simpl andb. cbv iota.
    replace (Z.to_nat (Z.of_nat (List.length (x :: l)) - 1))
      with (List.length l) by (simpl; lia).
    rewrite last_lookup. reflexivity.
Qed.

(** ** The unused-set computation *)

Lemma isInCG_true (uff : UnusedFuncFinder) (d : UnusedThing) :
  isInCG uff d = true
  <-> exists files, filesByCaller uff !! Name d = Some files
        /\ exists path, In path files /\ substring_of (File d) path.
Proof.
  unfold isInCG. destruct (filesByCaller uff !! Name d) as [files|].
  - rewrite existsb_exists. split.
    + intros [path [Hin Hc]]. exists files. split; [reflexivity|].
      exists path. split; [exact Hin | now apply Contains_true].
    + intros [files' [[= <-] [path [Hin Hc]]]].
      exists path. split; [exact Hin | now apply Contains_true].
  - split; [discriminate | intros [files [H _]]; discriminate].
Qed.

Lemma isInCG_false (uff : UnusedFuncFinder) (d : UnusedThing) :
  isInCG uff d = false
  <-> filesByCaller uff !! Name d = None
      \/ exists files, filesByCaller uff !! Name d = Some files
           /\ forall path, In path files -> ~ substring_of (File d) path.
Proof.
  split.
  - intros H. destruct (filesByCaller uff !! Name d) as [files|] eqn:E;
      [right | now left].
    exists files. split; [reflexivity|]. intros path Hin Hsub.
    assert (isInCG uff d = true) by (apply isInCG_true; eauto).
    congruence.
  - intros H. destruct (isInCG uff d) eqn:E; [|reflexivity].
    apply isInCG_true in E. destruct E as [files [Hl [path [Hin Hsub]]]].
    destruct H as [H | [files' [H Hno]]]; [congruence|].
    rewrite Hl in H. injection H as <-. destruct (Hno path Hin Hsub).
Qed.

Lemma unused_loop (uff : UnusedFuncFinder) (l acc : list UnusedThing) :
  fold_left
    (fun unused f => if negb (isInCG uff f) then unused ++ [f] else unused) l acc
  = acc ++ List.filter (fun f => negb (isInCG uff f)) l.
Proof.
  revert acc. induction l as [|f l IH]; intros acc; simpl.
  - now rewrite app_nil_r.
  - rewrite IH. destruct (negb (isInCG uff f)); [|reflexivity].
    now rewrite <- app_assoc.
Qed.

(** The loop of [computeUnusedFuncs] is a filter over the declarations. *)
Lemma computeUnusedFuncs_filter (uff : UnusedFuncFinder) :
  computeUnusedFuncs uff = List.filter (fun f => negb (isInCG uff f)) (funcs uff).
Proof. unfold computeUnusedFuncs. now rewrite unused_loop. Qed.

Lemma filter_sublist {A : Type} (p : A -> bool) (l : list A) :
  sublist (List.filter p l) l.
Proof.
  induction l as [|x l IH]; simpl; [constructor|].
  destruct (p x); now constructor.
Qed.

Lemma In_computeUnusedFuncs (uff : UnusedFuncFinder) (d : UnusedThing) :
  In d (computeUnusedFuncs uff) <-> In d (funcs uff) /\ isInCG uff d = false.
Proof.
  rewrite computeUnusedFuncs_filter, filter_In, negb_true_iff. reflexivity.
Qed.

(** ** The caller index *)

Lemma addEntry_short (m : gmap string (list string)) (e : serial.CallGraph) :
  addEntry m e =
    match afterLastSep (serial.Name e) with
    | Some k => <[k := default [] (m !! k) ++ [serial.Pos e]]> m
    | None => m
    end.
Proof.
  unfold addEntry. rewrite slice_is_afterLastSep.
  now destruct (negb (LastIndex (serial.Name e) "." + 1 =? 0)%Z).
Qed.

Lemma positionsFor_cons (k : string) (e : serial.CallGraph) (cg : list serial.CallGraph) :
  positionsFor k (e :: cg) =
    if decide (afterLastSep (serial.Name e) = Some k)
    then serial.Pos e :: positionsFor k cg else positionsFor k cg.
Proof.
  unfold positionsFor. rewrite filter_cons.
  now destruct (decide (afterLastSep (serial.Name e) = Some k)).
Qed.

Lemma positionsFor_app (k : string) (cg1 cg2 : list serial.CallGraph) :
  positionsFor k (cg1 ++ cg2) = positionsFor k cg1 ++ positionsFor k cg2.
Proof. unfold positionsFor. now rewrite filter_app, fmap_app. Qed.

Lemma appended_nil (old : option (list string)) : appended old [] = old.
Proof. destruct old as [l|]; simpl; [now rewrite app_nil_r | reflexivity]. Qed.

(** The index after the loop of [buildFileMap], entry by entry. *)
Lemma fold_addEntry_lookup (cg : list serial.CallGraph)
    (m : gmap string (list string)) (k : string) :
  fold_left addEntry cg m !! k = appended (m !! k) (positionsFor k cg).
Proof.
  revert m. induction cg as [|e cg IH]; intros m.
  - simpl. now rewrite appended_nil.
  - simpl fold_left. rewrite IH, positionsFor_cons, addEntry_short.
    destruct (afterLastSep (serial.Name e)) as [k'|] eqn:E.
    + destruct (decide (Some k' = Some k)) as [[= ->]|Hne].
      * rewrite lookup_insert_eq.
        destruct (m !! k) as [old|]; simpl.
        -- destruct (positionsFor k cg); simpl; now rewrite <- app_assoc.
        -- now destruct (positionsFor k cg).
      * rewrite lookup_insert_ne by congruence. reflexivity.
    + destruct (decide (None = Some k)); [discriminate | reflexivity].
Qed.

(** ** Reasoning about the state monad *)

Lemma bind_Done {A B : Type} (m : M A) (k : A -> M B) (s s' : State) (a : A) :
  m s = Done a s' -> bind m k s = k a s'.
Proof. intros H. unfold bind. now rewrite H. Qed.

Lemma bind_assoc {A B C : Type} (m : M A) (k : A -> M B) (h : B -> M C) (s : State) :
  bind (bind m k) h s = bind m (fun a => bind (k a) h) s.
Proof. unfold bind. now destruct (m s). Qed.

Section Steps.
Context (R : State -> State -> Prop) `{!PreOrder R}.

Lemma steps_ret {A : Type} (a : A) : steps R (ret a).
Proof. intros s. exists a, s. split; reflexivity. Qed.

Lemma steps_bind {A B : Type} (m : M A) (k : A -> M B) :
  steps R m -> (forall a, steps R (k a)) -> steps R (bind m k).
Proof.
  intros Hm Hk s.
  destruct (Hm s) as [a [s1 [E1 R1]]].
  destruct (Hk a s1) as [b [s2 [E2 R2]]].
  exists b, s2. split.
  - now rewrite (bind_Done _ _ _ _ _ E1).
  - now transitivity s1.
Qed.

Lemma steps_getFinder : steps R getFinder.
Proof. intros s. exists (finder s), s. split; reflexivity. Qed.

Lemma steps_rangeAll {A : Type} (body : A -> M unit) (xs : list A) :
  (forall x, steps R (body x)) -> steps R (rangeAll body xs).
Proof.
  intros Hb. induction xs as [|x xs IH]; simpl.
  - apply steps_ret.
  - apply steps_bind; [apply Hb | intros _; exact IH].
Qed.

Lemma steps_rangeUntilErr {A : Type} (body : A -> M (option error)) (xs : list A) :
  (forall x, steps R (body x)) -> steps R (rangeUntilErr body xs).
Proof.
  intros Hb. induction xs as [|x xs IH]; simpl.
  - apply steps_ret.
  - apply steps_bind; [apply Hb | intros [e|]; [apply steps_ret | exact IH]].
Qed.
End Steps.

Lemma steps_weaken {A : Type} (R R' : State -> State -> Prop) (m : M A) :
  (forall s s', R s s' -> R' s s') -> steps R m -> steps R' m.
Proof.
  intros HR Hm s. destruct (Hm s) as [a [s' [E H]]]. exists a, s'. auto.
Qed.

(** ** The collection phase *)

Lemma collects_refl (s : State) : collects s s.
Proof.
  constructor; try reflexivity.
  - exists []. now rewrite app_nil_r.
  - exists []. now rewrite app_nil_r.
Qed.

Lemma collects_trans (s1 s2 s3 : State) :
  collects s1 s2 -> collects s2 s3 -> collects s1 s3.
Proof.
  intros [I1 V1 A1 G1 C1 F1 [a1 [Hf1 Hx1]] [e1 [Ht1 He1]]]
         [I2 V2 A2 G2 C2 F2 [a2 [Hf2 Hx2]] [e2 [Ht2 He2]]].
  constructor; try congruence.
  - exists (a1 ++ a2). split.
    + now rewrite Hf2, Hf1, app_assoc.
    + apply Forall_app. now split.
  - exists (e1 ++ e2). split.
    + now rewrite Ht2, Ht1, app_assoc.
    + rewrite forallb_app, He1, He2. reflexivity.
Qed.

#[global] Instance collects_preorder : PreOrder collects.
Proof. split; [exact collects_refl | exact collects_trans]. Qed.

(** Writing to the log, or any other change of the finder that keeps the
    fields [collects] speaks of. *)
Lemma collects_modify (f : UnusedFuncFinder -> UnusedFuncFinder) (added : list UnusedThing) :
  (forall u, Idents (f u) = Idents u /\ Verbose (f u) = Verbose u
             /\ IncludeAll (f u) = IncludeAll u /\ Ignore (f u) = Ignore u
             /\ Callgraph (f u) = Callgraph u
             /\ filesByCaller (f u) = filesByCaller u
             /\ funcs (f u) = funcs u ++ added) ->
  Forall (fun d => excluded (Name d) = false) added ->
  steps collects (modifyFinder f).
Proof.
  intros Hf Hadd s. exists tt, (mkState (f (finder s)) (trace s)).
  split; [reflexivity|].
  destruct (Hf (finder s)) as (? & ? & ? & ? & ? & ? & ?).
  constructor; simpl; try assumption.
  - exists added. now split.
  - exists []. now rewrite app_nil_r.
Qed.

Lemma collects_Logf (l : LogLine) : steps collects (Logf l).
Proof.
  apply (collects_modify _ []); [|constructor].
  intros [cg ig v ia lw cj id eo sm fb pk fu nf]. simpl. rewrite app_nil_r.
  destruct v; repeat split; reflexivity.
Qed.

Lemma collects_Errorf (l : LogLine) : steps collects (Errorf l).
Proof.
  apply (collects_modify _ []); [|constructor].
  intros u. now rewrite app_nil_r.
Qed.

Lemma collects_emit (e : Event) : is_file_access e = true -> steps collects (emit e).
Proof.
  intros He s. exists tt, (mkState (finder s) (trace s ++ [e])).
  split; [reflexivity|]. constructor; simpl; try reflexivity.
  - exists []. now rewrite app_nil_r.
  - exists [e]. split; [reflexivity|]. simpl. now rewrite He.
Qed.

Lemma collects_AddPkg (pkg : string) : steps collects (AddPkg pkg).
Proof.
  apply steps_bind; [apply _ | | intros _; apply collects_Logf].
  apply (collects_modify _ []); [|constructor].
  intros u. now rewrite app_nil_r.
Qed.

Lemma collects_inspectNode (filename : string) (n : Node) :
  steps collects (inspectNode filename n).
Proof.
  unfold inspectNode.
  set (name := match n with FuncDecl name => name | OtherNode => EmptyString end).
  destruct (negb (String.eqb name EmptyString)); [|apply steps_ret, _].
  destruct (excluded name) eqn:Ex; [apply steps_ret, _|].
  apply (collects_modify _ [mkUnusedThing name filename]).
  - intros u. repeat split; reflexivity.
  - constructor; [exact Ex | constructor].
Qed.

Lemma collects_canReadSourceFile (filename : string) :
  steps collects (canReadSourceFile filename).
Proof.
  apply steps_bind; [apply _ | apply steps_getFinder, _ | intros u].
  destruct (_ && _).
  - apply steps_bind; [apply _ | apply collects_Logf | intros _; apply steps_ret, _].
  - destruct (negb _); apply steps_ret, _.
Qed.

Section CollectWithGopath.
Variable w : World.
Hypothesis gopath_set : GOPATH w <> EmptyString.

Lemma collects_getFullPkgName (filename : string) :
  steps collects (getFullPkgName w filename).
Proof.
  apply steps_bind; [apply _ | now apply collects_emit | intros _].
  destruct (Abs w filename) as [abs|err]; [|apply steps_ret, _].
  cbv beta iota zeta.
  destruct (findRoot w abs (SplitList (GOPATH w))); [apply steps_ret, _|].
  rewrite index_last.
  destruct (last (SplitList (GOPATH w))) as [root|] eqn:E; [apply steps_ret, _|].
  apply last_None, SplitList_nil in E. contradiction.
Qed.

Lemma collects_readFuncsAndImportsFromFile (filename : string) :
  steps collects (readFuncsAndImportsFromFile w filename).
Proof.
  apply steps_bind; [apply _ | now apply collects_emit | intros _].
  destruct (ParseFile w filename) as [f|err]; [|apply steps_ret, _].
  apply steps_bind; [apply _ | apply steps_getFinder, _ | intros u].
  apply steps_bind; [apply _ | | intros [e|]].
  - destruct (_ || _); [|apply steps_ret, _].
    apply steps_bind; [apply _ | apply collects_getFullPkgName | intros [pkg [e|]]].
    + apply steps_ret, _.
    + apply steps_bind; [apply _ | apply collects_AddPkg | intros _; apply steps_ret, _].
  - apply steps_ret, _.
  - apply steps_bind; [apply _ | | intros _].
    + apply steps_rangeAll; [apply _ | intros n; apply collects_inspectNode].
    + apply steps_bind; [apply _ | | intros _; apply steps_ret, _].
      apply (collects_modify _ []); [|constructor].
      intros u'. now rewrite app_nil_r.
Qed.

Lemma collects_walkFn (e : WalkEntry) : steps collects (walkFn w e).
Proof.
  unfold walkFn. destruct (wErr e); [apply steps_ret, _|].
  destruct (negb (wIsDir e)); [|apply steps_ret, _].
  apply steps_bind; [apply _ | apply collects_canReadSourceFile | intros [|]].
  - apply collects_readFuncsAndImportsFromFile.
  - apply steps_ret, _.
Qed.

Lemma collects_readDir (dirname : string) : steps collects (readDir w dirname).
Proof.
  apply steps_bind; [apply _ | now apply collects_emit | intros _].
  apply steps_rangeUntilErr; [apply _ | apply collects_walkFn].
Qed.

Lemma collects_readArg (filename : string) : steps collects (readArg w filename).
Proof.
  apply steps_bind; [apply _ | | intros [|]].
  - apply steps_bind; [apply _ | now apply collects_emit | intros _; apply steps_ret, _].
  - apply steps_bind; [apply _ | apply collects_readDir | intros [err|]].
    + apply steps_bind; [apply _ | apply collects_Errorf | intros _; apply collects_Errorf].
    + apply steps_ret, _.
  - apply steps_bind; [apply _ | apply collects_canReadSourceFile | intros [|]].
    + apply steps_bind;
        [apply _ | apply collects_readFuncsAndImportsFromFile | intros [err|]].
      * apply steps_bind; [apply _ | apply collects_Errorf | intros _; apply collects_Errorf].
      * apply steps_ret, _.
    + apply steps_ret, _.
Qed.

Lemma collects_collectPhase (fileArgs : list string) :
  steps collects (collectPhase w fileArgs).
Proof.
  apply steps_bind; [apply _ | apply collects_Logf | intros _].
  apply steps_bind; [apply _ | | intros _].
  - apply steps_rangeAll; [apply _ | apply collects_readArg].
  - apply steps_bind; [apply _ | apply steps_getFinder, _ | intros u].
    apply collects_Logf.
Qed.

(** [Run] past its sanity checks is the collection phase followed by the
    choice between identifier mode and the oracle phase. *)
Lemma Run_phases (fileArgs : list string) (s : State) :
  fileArgs <> [] ->
  Run w fileArgs s =
    bind (collectPhase w fileArgs)
      (fun _ => u <- getFinder ;;
                if Idents u then findUnusedIdents w else oraclePhase w) s.
Proof.
  intros Hargs. unfold Run, collectPhase.
  destruct fileArgs as [|a l]; [contradiction|].
  change (Z.of_nat (List.length (a :: l)) =? 0)%Z with false.
  destruct (String.eqb_spec (GOPATH w) EmptyString) as [E|_]; [contradiction|].
  cbv iota.
  rewrite !bind_assoc. unfold bind.
  destruct (Logf LCollecting s) as [[] s1|]; [|reflexivity].
  destruct (rangeAll (readArg w) (a :: l) s1) as [[] s2|]; [|reflexivity].
  reflexivity.
Qed.
End CollectWithGopath.

(** ** The oracle phase *)

(** The oracle phase always queries the oracle, once, with the packages
    found so far; what it returns is decided by the oracle's answer alone. *)
Lemma oraclePhase_spec (w : World) (s1 : State) :
  exists r s2,
    oraclePhase w s1 = Done r s2
    /\ trace s2 = trace s1 ++ [EvQuery (pkgsAsArray (finder s1))]
    /\ funcs (finder s2) = funcs (finder s1)
    /\ match Query w (pkgsAsArray (finder s1)) with
       | inl (Some cg) =>
           r = (Some (computeUnusedFuncs (finder s2)), None)
           /\ Callgraph (finder s2) = Some cg
           /\ filesByCaller (finder s2)
              = fold_left addEntry cg (filesByCaller (finder s1))
       | inl None =>
           r = (None, Some ErrNoCallgraph)
           /\ Callgraph (finder s2) = Callgraph (finder s1)
           /\ filesByCaller (finder s2) = filesByCaller (finder s1)
       | inr err =>
           r = (None, Some err)
           /\ Callgraph (finder s2) = Callgraph (finder s1)
           /\ filesByCaller (finder s2) = filesByCaller (finder s1)
       end.
Proof.
  destruct s1 as [[cg0 ig v ia lw cj id eo sm fb pk fu nf] tr].
  unfold oraclePhase, getCallgraphFromOracle, bind, getFinder, Logf, Errorf,
    modifyFinder, emit, ret, pkgsAsArray.
  cbn [finder trace Verbose pkgs].
  destruct v; cbn [finder trace pkgs set_LogWriter Verbose];
    destruct (Query w (elements pk)) as [[cg|]|err];
    cbn [finder trace Verbose]; eexists _, _;
    (split; [reflexivity|]); cbn [finder trace funcs];
    repeat split; reflexivity.
Qed.

Section RunModes.
Variable w : World.

Lemma Run_no_args (s : State) :
  Run w [] s =
    Done (None, Some ErrNoFiles)
      (mkState (set_LogWriter (LogWriter (finder s) ++ [LMustSupplyFile]) (finder s))
         (trace s)).
Proof. reflexivity. Qed.

Lemma Run_no_gopath (fileArgs : list string) (s : State) :
  fileArgs <> [] -> GOPATH w = EmptyString ->
  Run w fileArgs s =
    Done (None, Some ErrGopathNotSet)
      (mkState (set_LogWriter (LogWriter (finder s) ++ [LGopathNotSet]) (finder s))
         (trace s)).
Proof.
  intros Hargs E. unfold Run. destruct fileArgs as [|a l]; [contradiction|].
  change (Z.of_nat (List.length (a :: l)) =? 0)%Z with false.
  rewrite E. reflexivity.
Qed.

Hypothesis gopath_set : GOPATH w <> EmptyString.

(** After the sanity checks: the collection phase ends in some state [s1],
    and [Run] continues from there as the mode says. *)
Lemma Run_after_collection (fileArgs : list string) (s : State) :
  fileArgs <> [] ->
  exists s1,
    collectPhase w fileArgs s = Done tt s1
    /\ collects s s1
    /\ Run w fileArgs s =
         (if Idents (finder s) then findUnusedIdents w else oraclePhase w) s1.
Proof.
  intros Hargs.
  destruct (collects_collectPhase w gopath_set fileArgs s) as [[] [s1 [E C]]].
  exists s1. split; [exact E|]. split; [exact C|].
  rewrite (Run_phases w gopath_set) by exact Hargs.
  rewrite (bind_Done _ _ _ _ _ E).
  unfold bind, getFinder. now rewrite (col_Idents _ _ C).
Qed.
End RunModes.

(** [Run] comes in four shapes. *)
Lemma Run_cases (w : World) (fileArgs : list string) (s : State) :
  (fileArgs = []
   /\ Run w fileArgs s =
        Done (None, Some ErrNoFiles)
          (mkState (set_LogWriter (LogWriter (finder s) ++ [LMustSupplyFile]) (finder s))
             (trace s)))
  \/ (fileArgs <> [] /\ GOPATH w = EmptyString
      /\ Run w fileArgs s =
           Done (None, Some ErrGopathNotSet)
             (mkState (set_LogWriter (LogWriter (finder s) ++ [LGopathNotSet]) (finder s))
                (trace s)))
  \/ (fileArgs <> [] /\ GOPATH w <> EmptyString
      /\ exists s1,
           collects s s1
           /\ Run w fileArgs s =
                (if Idents (finder s) then findUnusedIdents w else oraclePhase w) s1).
Proof.
  destruct fileArgs as [|a l].
  - left. split; [reflexivity | apply Run_no_args].
  - right. destruct (String.eqb_spec (GOPATH w) EmptyString) as [E|E].
    + left. split; [discriminate|]. split; [exact E|].
      now apply Run_no_gopath.
    + right. split; [discriminate|]. split; [exact E|].
      destruct (Run_after_collection w E (a :: l) s) as [s1 [_ [C R]]];
        [discriminate|].
      now exists s1.
Qed.

(** A successful run in oracle mode returns [computeUnusedFuncs] of the
    finder it ends with. *)
Lemma Run_findings (w : World) (fileArgs : list string) (s s' : State)
    (findings : list UnusedThing) :
  Idents (finder s) = false ->
  Run w fileArgs s = Done (Some findings, None) s' ->
  findings = computeUnusedFuncs (finder s')
  /\ exists added, funcs (finder s') = funcs (finder s) ++ added
       /\ Forall (fun d => excluded (Name d) = false) added.
Proof.
  intros Hid HR.
  destruct (Run_cases w fileArgs s)
    as [[_ E] | [(_ & _ & E) | (_ & _ & s1 & C & E)]];
    rewrite E in HR; try discriminate.
  rewrite Hid in HR.
  destruct (oraclePhase_spec w s1) as (r & s2 & E2 & _ & Hf & HQ).
  rewrite E2 in HR. injection HR as -> ->.
  destruct (col_funcs _ _ C) as [added [Ha Hx]].
  destruct (Query w _) as [[cg|]|err]; destruct HQ as [[= Hr] _]; try discriminate.
  split; [congruence|]. exists added. split; [congruence | exact Hx].
Qed.

Lemma no_query_among_file_accesses (evs : list Event) (pkgs : list string) :
  forallb is_file_access evs = true -> ~ In (EvQuery pkgs) evs.
Proof.
  intros H Hin. rewrite forallb_forall in H. discriminate (H _ Hin).
Qed.

(** ** The claims about [Run] and the unused-set computation *)

(** C1: a collected declaration [d] is among the findings [Run] returns
    exactly when its name has no entry in the caller index, or no position of
    that entry contains [d]'s file as a substring; if some position does
    contain it, [d] is not reported. *)
Theorem C1_reported_iff_unmatched (w : World) (fileArgs : list string)
    (s s' : State) (findings : list UnusedThing) (d : UnusedThing) :
  Idents (finder s) = false ->
  Run w fileArgs s = Done (Some findings, None) s' ->
  In d (funcs (finder s')) ->
  (In d findings
   <-> (filesByCaller (finder s') !! Name d = None
        \/ exists files,
             filesByCaller (finder s') !! Name d = Some files
             /\ forall path, In path files -> ~ substring_of (File d) path))
  /\ ((exists files path,
         filesByCaller (finder s') !! Name d = Some files
         /\ In path files /\ substring_of (File d) path)
      -> ~ In d findings).
Proof.
  intros Hid HR Hd.
  destruct (Run_findings w fileArgs s s' findings Hid HR) as [-> _].
  split.
  - rewrite In_computeUnusedFuncs, isInCG_false. tauto.
  - intros (files & path & Hl & Hin & Hsub).
    rewrite In_computeUnusedFuncs. intros [_ Hno].
    assert (isInCG (finder s') d = true) by (apply isInCG_true; eauto).
    congruence.
Qed.

Lemma C1_reported_iff_unmatched_witness :
  (In (mkUnusedThing "alpha" Demo.main_go)
      [mkUnusedThing "zeta" Demo.main_go; mkUnusedThing "alpha" Demo.main_go]
   <-> (filesByCaller
          (finder (final_state (Run Demo.world [Demo.main_go] Demo.start)))
          !! "alpha" = None
        \/ exists files,
             filesByCaller
               (finder (final_state (Run Demo.world [Demo.main_go] Demo.start)))
               !! "alpha" = Some files
             /\ forall path, In path files -> ~ substring_of Demo.main_go path))
  /\ ((exists files path,
         filesByCaller
           (finder (final_state (Run Demo.world [Demo.main_go] Demo.start)))
           !! "alpha" = Some files
         /\ In path files /\ substring_of Demo.main_go path)
      -> ~ In (mkUnusedThing "alpha" Demo.main_go)
             [mkUnusedThing "zeta" Demo.main_go; mkUnusedThing "alpha" Demo.main_go]).
Proof.
  apply (C1_reported_iff_unmatched Demo.world [Demo.main_go] Demo.start
           (final_state (Run Demo.world [Demo.main_go] Demo.start))
           [mkUnusedThing "zeta" Demo.main_go; mkUnusedThing "alpha" Demo.main_go]
           (mkUnusedThing "alpha" Demo.main_go)).
  - reflexivity.
  - vm_compute. reflexivity.
  - vm_compute. right. left. reflexivity.
Defined.

(** C8: the findings keep the order in which the declarations were
    collected: they are the declarations of the finder that are not in the
    call graph, as a subsequence, and the collection only ever appends. *)
Theorem C8_findings_keep_order (w : World) (fileArgs : list string)
    (s s' : State) (findings : list UnusedThing) :
  Idents (finder s) = false ->
  Run w fileArgs s = Done (Some findings, None) s' ->
  findings = List.filter (fun f => negb (isInCG (finder s') f)) (funcs (finder s'))
  /\ sublist findings (funcs (finder s'))
  /\ exists added, funcs (finder s') = funcs (finder s) ++ added.
Proof.
  intros Hid HR.
  destruct (Run_findings w fileArgs s s' findings Hid HR) as [-> [added [Ha _]]].
  rewrite computeUnusedFuncs_filter. split; [reflexivity|]. split.
  - apply filter_sublist.
  - now exists added.
Qed.

Lemma C8_findings_keep_order_witness :
  [mkUnusedThing "zeta" Demo.main_go; mkUnusedThing "alpha" Demo.main_go;
   mkUnusedThing "idle" Demo.util_go]
  = List.filter
      (fun f => negb (isInCG
         (finder (final_state
            (Run Demo.world [Demo.main_go; Demo.util_go] Demo.start))) f))
      (funcs (finder (final_state
         (Run Demo.world [Demo.main_go; Demo.util_go] Demo.start))))
  /\ sublist
       [mkUnusedThing "zeta" Demo.main_go; mkUnusedThing "alpha" Demo.main_go;
        mkUnusedThing "idle" Demo.util_go]
       (funcs (finder (final_state
          (Run Demo.world [Demo.main_go; Demo.util_go] Demo.start))))
  /\ exists added,
       funcs (finder (final_state
         (Run Demo.world [Demo.main_go; Demo.util_go] Demo.start)))
       = funcs (finder Demo.start) ++ added.
Proof.
  apply (C8_findings_keep_order Demo.world [Demo.main_go; Demo.util_go] Demo.start).
  - reflexivity.
  - vm_compute. reflexivity.
Defined.

(** C6: with no input path, or with GOPATH unset or empty, [Run] returns an
    error and no findings; nothing but one line of the log changes, and no
    call has left the package: no file was looked at, read or parsed, and the
    oracle was not queried. *)
Theorem C6_sanity_checks_fail_first (w : World) (fileArgs : list string) (s : State) :
  fileArgs = [] \/ GOPATH w = EmptyString ->
  exists err line,
    Run w fileArgs s =
      Done (None, Some err)
        (mkState (set_LogWriter (LogWriter (finder s) ++ [line]) (finder s)) (trace s))
    /\ ((err, line) = (ErrNoFiles, LMustSupplyFile)
        \/ (err, line) = (ErrGopathNotSet, LGopathNotSet)).
Proof.
  intros H.
  destruct (Run_cases w fileArgs s)
    as [[_ E] | [(_ & _ & E) | (Hargs & Hgo & _)]].
  - exists ErrNoFiles, LMustSupplyFile. auto.
  - exists ErrGopathNotSet, LGopathNotSet. auto.
  - destruct H; contradiction.
Qed.

Lemma C6_sanity_checks_fail_first_witness :
  exists err line,
    Run Demo.world_no_gopath [Demo.main_go] Demo.start =
      Done (None, Some err)
        (mkState
           (set_LogWriter (LogWriter (finder Demo.start) ++ [line]) (finder Demo.start))
           (trace Demo.start))
    /\ ((err, line) = (ErrNoFiles, LMustSupplyFile)
        \/ (err, line) = (ErrGopathNotSet, LGopathNotSet)).
Proof.
  apply (C6_sanity_checks_fail_first Demo.world_no_gopath [Demo.main_go] Demo.start).
  right. reflexivity.
Defined.

(** C7: in identifiers-only mode [Run] ends without a single oracle query in
    its trace, and what it returns is one of the two sanity-check errors or
    the result of identifier mode, never an error of the oracle. *)
Theorem C7_idents_mode_never_queries (w : World) (fileArgs : list string) (s : State) :
  Idents (finder s) = true ->
  exists r s' evs,
    Run w fileArgs s = Done r s'
    /\ trace s' = trace s ++ evs
    /\ (forall pkgs, ~ In (EvQuery pkgs) evs)
    /\ (r = (None, Some ErrNoFiles)
        \/ r = (None, Some ErrGopathNotSet)
        \/ r = (Some (identsOf w (funcs (finder s'))), None)).
Proof.
  intros Hid.
  destruct (Run_cases w fileArgs s)
    as [[_ E] | [(_ & _ & E) | (_ & _ & s1 & C & E)]].
  - eexists _, _, []. split; [exact E|]. simpl. rewrite app_nil_r. auto.
  - eexists _, _, []. split; [exact E|]. simpl. rewrite app_nil_r. auto.
  - rewrite Hid in E. destruct (col_trace _ _ C) as [evs [Ht He]].
    exists (Some (identsOf w (funcs (finder s1))), None), s1, evs.
    split; [exact E|]. split; [exact Ht|]. split; [|auto].
    intros pkgs. now apply no_query_among_file_accesses.
Qed.

Lemma C7_idents_mode_never_queries_witness :
  exists r s' evs,
    Run Demo.world [Demo.main_go] Demo.start_idents = Done r s'
    /\ trace s' = trace Demo.start_idents ++ evs
    /\ (forall pkgs, ~ In (EvQuery pkgs) evs)
    /\ (r = (None, Some ErrNoFiles)
        \/ r = (None, Some ErrGopathNotSet)
        \/ r = (Some (identsOf Demo.world (funcs (finder s'))), None)).
Proof.
  apply (C7_idents_mode_never_queries Demo.world [Demo.main_go] Demo.start_idents).
  reflexivity.
Defined.

(** C2, as the specification states it, fails: with [Callgraph] set before
    [Run] and identifiers-only mode off, the oracle is queried all the same,
    and the findings are those of the oracle's graph, not of the supplied
    one (which would leave only [alpha]). *)
Lemma C2_counterexample :
  Callgraph (finder Demo.start_supplied) = Some Demo.supplied
  /\ Idents (finder Demo.start_supplied) = false
  /\ exists s',
       Run Demo.world [Demo.main_go] Demo.start_supplied
       = Done (Some [mkUnusedThing "zeta" Demo.main_go;
                     mkUnusedThing "alpha" Demo.main_go], None) s'
       /\ In (EvQuery ["app"]) (trace s')
       /\ Callgraph (finder s') = Some Demo.graph
       /\ computeUnusedFuncs
            (buildFileMap
               (set_funcs (funcs (finder s')) (finder Demo.start_supplied)))
          = [mkUnusedThing "alpha" Demo.main_go].
Proof.
  split; [reflexivity|]. split; [reflexivity|].
  eexists. split; [vm_compute; reflexivity|].
  split; [vm_compute; tauto|]. split; vm_compute; reflexivity.
Qed.

(** C2, amended: whether or not [Callgraph] was set before, a run that
    passes the sanity checks with identifiers-only mode off queries the
    oracle exactly once, after the collection; when the oracle answers with a
    graph, that graph replaces the field, the caller index is built from it
    and the findings are computed from that index; otherwise [Run] returns
    the error and no findings. *)
Theorem C2_oracle_always_queried (w : World) (fileArgs : list string) (s : State) :
  fileArgs <> [] -> GOPATH w <> EmptyString -> Idents (finder s) = false ->
  exists r s' evs pkgs,
    Run w fileArgs s = Done r s'
    /\ trace s' = trace s ++ evs ++ [EvQuery pkgs]
    /\ (forall p, ~ In (EvQuery p) evs)
    /\ match Query w pkgs with
       | inl (Some cg) =>
           r = (Some (computeUnusedFuncs (finder s')), None)
           /\ Callgraph (finder s') = Some cg
           /\ filesByCaller (finder s')
              = fold_left addEntry cg (filesByCaller (finder s))
       | inl None => r = (None, Some ErrNoCallgraph)
       | inr err => r = (None, Some err)
       end.
Proof.
  intros Hargs Hgo Hid.
  destruct (Run_after_collection w Hgo fileArgs s Hargs) as (s1 & _ & C & E).
  rewrite Hid in E.
  destruct (oraclePhase_spec w s1) as (r & s2 & E2 & Ht & _ & HQ).
  destruct (col_trace _ _ C) as [evs [Ht1 He]].
  exists r, s2, evs, (pkgsAsArray (finder s1)).
  split; [congruence|]. split; [now rewrite Ht, Ht1, app_assoc|].
  split; [intros p; now apply no_query_among_file_accesses|].
  destruct (Query w _) as [[cg|]|err]; destruct HQ as (Hr & Hc & Hf); auto.
  split; [exact Hr|]. split; [exact Hc|].
  now rewrite Hf, (col_filesByCaller _ _ C).
Qed.

Lemma C2_oracle_always_queried_witness :
  exists r s' evs pkgs,
    Run Demo.world [Demo.main_go] Demo.start_supplied = Done r s'
    /\ trace s' = trace Demo.start_supplied ++ evs ++ [EvQuery pkgs]
    /\ (forall p, ~ In (EvQuery p) evs)
    /\ match Query Demo.world pkgs with
       | inl (Some cg) =>
           r = (Some (computeUnusedFuncs (finder s')), None)
           /\ Callgraph (finder s') = Some cg
           /\ filesByCaller (finder s')
              = fold_left addEntry cg (filesByCaller (finder Demo.start_supplied))
       | inl None => r = (None, Some ErrNoCallgraph)
       | inr err => r = (None, Some err)
       end.
Proof.
  apply (C2_oracle_always_queried Demo.world [Demo.main_go] Demo.start_supplied).
  - discriminate.
  - discriminate.
  - reflexivity.
Defined.

(** C5: [buildFileMap] appends, for every short name, the positions of the
    edges with that short name to the entry the index already had, in the
    order of the edges and keeping duplicates; an edge whose name holds no
    separator changes nothing; an edge whose name holds one is filed under
    the rest after its last separator. *)
Theorem C5_buildFileMap_index (uff : UnusedFuncFinder) :
  (forall k,
     filesByCaller (buildFileMap uff) !! k
     = appended (filesByCaller uff !! k)
         (positionsFor k (default [] (Callgraph uff))))
  /\ (forall m e, Contains (serial.Name e) "." = false -> addEntry m e = m)
  /\ (forall m e,
        Contains (serial.Name e) "." = true ->
        exists pre short,
          serial.Name e = pre +:+ "." +:+ short
          /\ Contains short "." = false
          /\ addEntry m e
             = <[short := default [] (m !! short) ++ [serial.Pos e]]> m)
  /\ (forall qn k,
        afterLastSep qn = Some k
        <-> exists pre, qn = pre +:+ "." +:+ k /\ Contains k "." = false).
Proof.
  split; [|split; [|split]].
  - intros k. unfold buildFileMap. cbn [filesByCaller set_filesByCaller].
    apply fold_addEntry_lookup.
  - intros m e Hc. rewrite addEntry_short.
    apply afterLastSep_None in Hc. now rewrite Hc.
  - intros m e Hc. rewrite addEntry_short.
    destruct (afterLastSep (serial.Name e)) as [k|] eqn:E.
    + apply afterLastSep_Some in E. destruct E as [pre [Hn Hk]].
      now exists pre, k.
    + apply afterLastSep_None in E. congruence.
  - intros qn k. apply afterLastSep_Some.
Qed.

(** Positions accumulate on top of an existing entry, duplicates included,
    and the edge without separator is skipped. *)
Example buildFileMap_example :
  let m :=
    filesByCaller
      (buildFileMap
         (set_Callgraph
            (Some [serial.mkCallGraph "a/b.c.f" "p1" [];
                   serial.mkCallGraph "nosep" "p2" [];
                   serial.mkCallGraph "x.f" "p1" [];
                   serial.mkCallGraph "x.g" "p3" []])
            (set_filesByCaller {[ "f" := ["p0"] ]} NewUnusedFunctionFinder))) in
  (m !! "f", m !! "g", m !! "nosep", size m)
  = (Some ["p0"; "p1"; "p1"], Some ["p3"], None, 2).
Proof. vm_compute. reflexivity. Qed.

(** ** Reading one file *)

Lemma canReadSourceFile_eligible (filename : string) (s : State) :
  eligible (finder s) filename = true ->
  canReadSourceFile filename s = Done true s.
Proof.
  unfold eligible, canReadSourceFile, bind, getFinder.
  intros H. apply andb_true_iff in H. destruct H as [H1 H2].
  apply negb_true_iff in H1. rewrite H1, H2. reflexivity.
Qed.

(** [getFullPkgName] touches nothing but the trace, and panics exactly when
    it reaches [goPaths[len(goPaths)-1]] with an empty list. *)
Lemma getFullPkgName_cases (w : World) (filename : string) (s : State) :
  getFullPkgName w filename s =
    let s0 := mkState (finder s) (trace s ++ [EvAbs filename]) in
    match Abs w filename with
    | inr err => Done (EmptyString, Some err) s0
    | inl abs =>
        match findRoot w abs (SplitList (GOPATH w)) with
        | Some pkg => Done (pkg, None) s0
        | None =>
            match last (SplitList (GOPATH w)) with
            | Some root => Done (EmptyString, Some (ErrCdTryAgain root)) s0
            | None => Panic s0
            end
        end
    end.
Proof.
  unfold getFullPkgName, bind, emit. cbv zeta.
  destruct (Abs w filename) as [abs|err]; [|reflexivity].
  destruct (findRoot w abs (SplitList (GOPATH w))); [reflexivity|].
  rewrite index_last. now destruct (last (SplitList (GOPATH w))).
Qed.

Lemma getFullPkgName_Done (w : World) (filename : string) (s s1 : State)
    (r : string * option error) :
  getFullPkgName w filename s = Done r s1 ->
  s1 = mkState (finder s) (trace s ++ [EvAbs filename]).
Proof.
  rewrite getFullPkgName_cases. cbv zeta.
  destruct (Abs w filename); [|congruence].
  destruct (findRoot w _ _); [congruence|].
  destruct (last _); [congruence | discriminate].
Qed.

(** The declarations the [ast.Inspect] callback appends for a list of
    nodes. *)
Lemma collect_nodes_cons (filename : string) (n : Node) (ns : list Node) :
  collectedFrom filename (mkParsedFile EmptyString (n :: ns)) =
    match n with
    | FuncDecl name =>
        if negb (String.eqb name EmptyString) && negb (excluded name)
        then mkUnusedThing name filename
             :: collectedFrom filename (mkParsedFile EmptyString ns)
        else collectedFrom filename (mkParsedFile EmptyString ns)
    | OtherNode => collectedFrom filename (mkParsedFile EmptyString ns)
    end.
Proof.
  unfold collectedFrom. destruct n as [name|]; [|reflexivity].
  cbn [nodes declNames List.filter].
  now destruct (negb (String.eqb name EmptyString) && negb (excluded name)).
Qed.

Lemma inspect_nodes (filename : string) (ns : list Node) (s : State) :
  exists s',
    rangeAll (inspectNode filename) ns s = Done tt s'
    /\ funcs (finder s')
       = funcs (finder s) ++ collectedFrom filename (mkParsedFile EmptyString ns)
    /\ pkgs (finder s') = pkgs (finder s)
    /\ numFilesRead (finder s') = numFilesRead (finder s)
    /\ LogWriter (finder s') = LogWriter (finder s)
    /\ trace s' = trace s.
Proof.
  revert s. induction ns as [|n ns IH]; intros s.
  - exists s. split; [reflexivity|]. cbn. now rewrite app_nil_r.
  - rewrite collect_nodes_cons. cbn [rangeAll]. unfold bind at 1.
    destruct n as [name|].
    + unfold inspectNode.
      destruct (negb (String.eqb name EmptyString)); cbn [andb].
      * destruct (excluded name); cbn [negb].
        -- unfold ret. apply IH.
        -- unfold modifyFinder.
           destruct (IH (mkState
                           (set_funcs (funcs (finder s) ++ [mkUnusedThing name filename])
                              (finder s)) (trace s)))
             as (s' & E & Hf & Hp & Hn & Hl & Ht).
           exists s'. split; [exact E|]. cbn in Hf, Hp, Hn, Hl, Ht.
           rewrite Hf, <- app_assoc. auto.
      * unfold ret. apply IH.
    + unfold inspectNode. cbn. unfold ret. apply IH.
Qed.

Lemma collectedFrom_nodes (filename : string) (f : ParsedFile) :
  collectedFrom filename f = collectedFrom filename (mkParsedFile EmptyString (nodes f)).
Proof. reflexivity. Qed.

Lemma In_declNames (ns : list Node) (name : string) :
  In name (declNames ns) <-> In (FuncDecl name) ns.
Proof.
  induction ns as [|n ns IH]; [reflexivity|].
  destruct n as [name'|]; simpl; rewrite IH; [|intuition congruence].
  split; (intros [H|H]; [left; congruence | now right]).
Qed.

(** Which records a file contributes: one for each function declaration with
    a non-empty name that is not excluded, under the file's name. *)
Lemma In_collectedFrom (filename : string) (f : ParsedFile) (d : UnusedThing) :
  In d (collectedFrom filename f)
  <-> File d = filename /\ In (FuncDecl (Name d)) (nodes f)
      /\ Name d <> EmptyString /\ excluded (Name d) = false.
Proof.
  unfold collectedFrom. rewrite <- list_elem_of_In, list_elem_of_fmap.
  setoid_rewrite list_elem_of_In. setoid_rewrite filter_In.
  setoid_rewrite In_declNames. setoid_rewrite andb_true_iff.
  setoid_rewrite negb_true_iff. setoid_rewrite String.eqb_neq.
  split.
  - intros (name & -> & Hin & Hne & Hex). cbn. auto.
  - intros (Hf & Hin & Hne & Hex). exists (Name d).
    destruct d as [n fl]. cbn in *. subst. auto.
Qed.

(** The state after a read that got past the package lookup. *)
Lemma read_tail (filename : string) (f : ParsedFile) (s : State) :
  exists s',
    (rangeAll (inspectNode filename) (nodes f) ;;
     modifyFinder (fun u => set_numFilesRead (wrap_int (numFilesRead u + 1)) u) ;;
     ret None) s = Done (@None error) s'
    /\ funcs (finder s') = funcs (finder s) ++ collectedFrom filename f
    /\ pkgs (finder s') = pkgs (finder s)
    /\ numFilesRead (finder s') = wrap_int (numFilesRead (finder s) + 1)
    /\ trace s' = trace s.
Proof.
  destruct (inspect_nodes filename (nodes f) s) as (s1 & E & Hf & Hp & Hn & _ & Ht).
  eexists. split.
  - rewrite (bind_Done _ _ _ _ _ E). reflexivity.
  - cbn. rewrite Hn. auto.
Qed.

(** The shapes a call of [readFuncsAndImportsFromFile] can take. *)
Lemma readFuncs_cases (w : World) (filename : string) (s : State) :
  let s0 := mkState (finder s) (trace s ++ [EvParseFile filename]) in
  let tail f :=
    (rangeAll (inspectNode filename) (nodes f) ;;
     modifyFinder (fun u => set_numFilesRead (wrap_int (numFilesRead u + 1)) u) ;;
     ret None) in
  readFuncsAndImportsFromFile w filename s =
    match ParseFile w filename with
    | inr err => Done (Some err) s0
    | inl f =>
        if String.eqb (pkgName f) "main" || IncludeAll (finder s) then
          match getFullPkgName w filename s0 with
          | Panic s1 => Panic s1
          | Done (_, Some e) s1 => Done (Some (ErrMainPkgPath e)) s1
          | Done (pkg, None) s1 => tail f (final_state (AddPkg pkg s1))
          end
        else tail f s0
    end.
Proof.
  cbv zeta. unfold readFuncsAndImportsFromFile.
  rewrite (bind_Done (emit (EvParseFile filename)) _ s
             (mkState (finder s) (trace s ++ [EvParseFile filename])) tt eq_refl).
  destruct (ParseFile w filename) as [f|err]; [|reflexivity].
  rewrite (bind_Done getFinder _ _ _ _ eq_refl). cbn [finder].
  destruct (String.eqb (pkgName f) "main" || IncludeAll (finder s));
    [|reflexivity].
  rewrite bind_assoc.
  destruct (getFullPkgName w filename _) as [[pkg [e|]] s1|s1] eqn:E.
  - now rewrite (bind_Done _ _ _ _ _ E).
  - now rewrite (bind_Done _ _ _ _ _ E).
  - unfold bind at 1. now rewrite E.
Qed.

Lemma AddPkg_state (pkg : string) (s : State) :
  exists s',
    AddPkg pkg s = Done tt s'
    /\ funcs (finder s') = funcs (finder s)
    /\ pkgs (finder s') = {[pkg]} ∪ pkgs (finder s)
    /\ numFilesRead (finder s') = numFilesRead (finder s)
    /\ trace s' = trace s.
Proof.
  destruct s as [[cg ig v ia lw cj id eo sm fb pk fu nf] tr].
  unfold AddPkg, bind, modifyFinder, Logf. cbn.
  destruct v; eexists; (split; [reflexivity|]); cbn; auto.
Qed.

Lemma getFullPkgName_finder (w : World) (filename : string) (s : State) :
  finder (final_state (getFullPkgName w filename s)) = finder s.
Proof.
  rewrite getFullPkgName_cases. cbv zeta.
  destruct (Abs w filename); [|reflexivity].
  destruct (findRoot w _ _); [reflexivity|].
  now destruct (last _).
Qed.

(** C4, as the specification states it, fails: [main.go] parses and declares
    [zeta], a named function that no exclusion rule matches, but the file is
    of package "main" and lies outside every GOPATH root, so the collector
    returns the package error before it inspects any declaration: [zeta] is
    not collected, by the read or by the whole run. *)
Lemma C4_counterexample :
  ParseFile DemoMore.world_outside_gopath Demo.main_go
  = inl (mkParsedFile "main"
           [OtherNode; FuncDecl "main"; OtherNode; FuncDecl "zeta";
            FuncDecl "TestZeta"; FuncDecl "alpha"; FuncDecl "init"])
  /\ excluded "zeta" = false
  /\ (exists s',
        readFuncsAndImportsFromFile DemoMore.world_outside_gopath Demo.main_go
          Demo.start
        = Done (Some (ErrMainPkgPath (ErrCdTryAgain "/elsewhere"))) s'
        /\ ~ In (mkUnusedThing "zeta" Demo.main_go) (funcs (finder s')))
  /\ exists s',
       Run DemoMore.world_outside_gopath [Demo.main_go] Demo.start
       = Done (Some [], None) s'
       /\ funcs (finder s') = [].
Proof.
  split; [reflexivity|]. split; [reflexivity|]. split.
  - eexists. split; [vm_compute; reflexivity|]. cbn. tauto.
  - eexists. split; vm_compute; reflexivity.
Qed.

(** C4, amended: for every parsed source file, a function declaration whose
    name contains "Test" or is "main", "init" or "test" is never added to the
    declarations, and no run adds such a name to its findings; every other
    named function declaration is collected when the read returns no error,
    as it does whenever the file is neither of package "main" nor read in
    include-all mode, or its package identifier can be derived; when the
    read does not return without error (the package identifier cannot be
    derived), none of the file's declarations is collected. *)
Theorem C4_exclusion_at_collection (w : World) (filename : string)
    (f : ParsedFile) (s : State) :
  ParseFile w filename = inl f ->
  (forall s',
     readFuncsAndImportsFromFile w filename s = Done None s' ->
     funcs (finder s') = funcs (finder s) ++ collectedFrom filename f)
  /\ (forall name,
        In (FuncDecl name) (nodes f) -> name <> EmptyString ->
        (In (mkUnusedThing name filename) (collectedFrom filename f)
         <-> ~ (substring_of "Test" name
                \/ name = "main" \/ name = "init" \/ name = "test")))
  /\ (forall d,
        In d (collectedFrom filename f) ->
        File d = filename /\ In (FuncDecl (Name d)) (nodes f)
        /\ ~ (substring_of "Test" (Name d)
              \/ Name d = "main" \/ Name d = "init" \/ Name d = "test"))
  /\ ((forall s', readFuncsAndImportsFromFile w filename s <> Done None s') ->
      funcs (finder (final_state (readFuncsAndImportsFromFile w filename s)))
      = funcs (finder s))
  /\ (String.eqb (pkgName f) "main" || IncludeAll (finder s) = false ->
      exists s', readFuncsAndImportsFromFile w filename s = Done None s')
  /\ (forall pkg s1,
        getFullPkgName w filename
          (mkState (finder s) (trace s ++ [EvParseFile filename]))
        = Done (pkg, None) s1 ->
        exists s', readFuncsAndImportsFromFile w filename s = Done None s')
  /\ (forall fileArgs s0 s' findings d,
        Idents (finder s0) = false ->
        Run w fileArgs s0 = Done (Some findings, None) s' ->
        In d findings ->
        In d (funcs (finder s0))
        \/ ~ (substring_of "Test" (Name d)
              \/ Name d = "main" \/ Name d = "init" \/ Name d = "test")).
Proof.
  intros Hp.
  pose proof (readFuncs_cases w filename s) as HC. cbv zeta in HC.
  rewrite Hp in HC.
  split; [|split; [|split; [|split; [|split; [|split]]]]].
  - intros s' HR. rewrite HC in HR.
    destruct (String.eqb (pkgName f) "main" || IncludeAll (finder s)).
    + destruct (getFullPkgName w filename _) as [[pkg [e|]] s1|s1] eqn:E;
        try discriminate.
      apply getFullPkgName_Done in E.
      destruct (AddPkg_state pkg s1) as (s2 & E2 & Hf2 & _).
      rewrite E2 in HR. cbn [final_state] in HR.
      destruct (read_tail filename f s2) as (s3 & E3 & Hf3 & _).
      rewrite E3 in HR. injection HR as <-.
      rewrite Hf3, Hf2, E. reflexivity.
    + destruct (read_tail filename f
                  (mkState (finder s) (trace s ++ [EvParseFile filename])))
        as (s3 & E3 & Hf3 & _).
      rewrite E3 in HR. injection HR as <-. exact Hf3.
  - intros name Hin Hne. rewrite In_collectedFrom, <- excluded_true. cbn.
    destruct (excluded name); split; intuition congruence.
  - intros d Hd. apply In_collectedFrom in Hd.
    destruct Hd as (Hf & Hin & _ & Hex).
    rewrite <- excluded_true. split; [exact Hf|]. split; [exact Hin | congruence].
  - intros Hfail. rewrite HC in Hfail |- *.
    destruct (String.eqb (pkgName f) "main" || IncludeAll (finder s)).
    + pose proof (getFullPkgName_finder w filename
                    (mkState (finder s) (trace s ++ [EvParseFile filename])))
        as Hfin.
      destruct (getFullPkgName w filename _) as [[pkg [e|]] s1|s1] eqn:E.
      * cbn [final_state] in Hfin |- *. now rewrite Hfin.
      * destruct (AddPkg_state pkg s1) as (s2 & E2 & _).
        rewrite E2 in Hfail. cbn [final_state] in Hfail.
        destruct (read_tail filename f s2) as (s3 & E3 & _).
        destruct (Hfail s3 E3).
      * cbn [final_state] in Hfin |- *. now rewrite Hfin.
    + destruct (read_tail filename f
                  (mkState (finder s) (trace s ++ [EvParseFile filename])))
        as (s3 & E3 & _).
      destruct (Hfail s3 E3).
  - intros Hc. rewrite HC, Hc.
    destruct (read_tail filename f
                (mkState (finder s) (trace s ++ [EvParseFile filename])))
      as (s3 & E3 & _).
    now exists s3.
  - intros pkg s1 Hget. rewrite HC.
    destruct (String.eqb (pkgName f) "main" || IncludeAll (finder s)).
    + rewrite Hget.
      destruct (AddPkg_state pkg s1) as (s2 & E2 & _).
      rewrite E2. cbn [final_state].
      destruct (read_tail filename f s2) as (s3 & E3 & _).
      now exists s3.
    + destruct (read_tail filename f
                  (mkState (finder s) (trace s ++ [EvParseFile filename])))
        as (s3 & E3 & _).
      now exists s3.
  - intros fileArgs s0 s' findings d Hid HR Hd.
    destruct (Run_findings w fileArgs s0 s' findings Hid HR) as [-> [added [Ha Hx]]].
    apply In_computeUnusedFuncs in Hd. destruct Hd as [Hd _].
    rewrite Ha in Hd. apply in_app_or in Hd. destruct Hd as [Hd|Hd]; [now left|].
    right. rewrite <- excluded_true.
    rewrite Forall_forall in Hx. rewrite <- list_elem_of_In in Hd.
    rewrite (Hx d Hd). discriminate.
Qed.

Lemma C4_exclusion_at_collection_witness :
  funcs (finder (final_state
    (readFuncsAndImportsFromFile Demo.world Demo.main_go Demo.start)))
  = funcs (finder Demo.start)
    ++ [mkUnusedThing "zeta" Demo.main_go; mkUnusedThing "alpha" Demo.main_go].
Proof.
  apply (proj1 (C4_exclusion_at_collection Demo.world Demo.main_go
                  (mkParsedFile "main"
                     [OtherNode; FuncDecl "main"; OtherNode; FuncDecl "zeta";
                      FuncDecl "TestZeta"; FuncDecl "alpha"; FuncDecl "init"])
                  Demo.start eq_refl)
           (final_state
              (readFuncsAndImportsFromFile Demo.world Demo.main_go Demo.start))).
  vm_compute. reflexivity.
Defined.

(** X17: the findings of a run started on a finder without excluded
    declarations (a new finder has none at all) never name an excluded
    function. *)
Lemma findings_never_excluded (w : World) (fileArgs : list string)
    (s s' : State) (findings : list UnusedThing) (d : UnusedThing) :
  Forall (fun d => excluded (Name d) = false) (funcs (finder s)) ->
  Idents (finder s) = false ->
  Run w fileArgs s = Done (Some findings, None) s' ->
  In d findings ->
  ~ (substring_of "Test" (Name d)
     \/ Name d = "main" \/ Name d = "init" \/ Name d = "test").
Proof.
  intros H0 Hid HR Hd.
  destruct (Run_findings w fileArgs s s' findings Hid HR) as [-> [added [Ha Hx]]].
  apply In_computeUnusedFuncs in Hd. destruct Hd as [Hd _].
  rewrite Ha in Hd. rewrite <- excluded_true.
  assert (Hall : Forall (fun d => excluded (Name d) = false)
                   (funcs (finder s) ++ added)) by (apply Forall_app; auto).
  rewrite Forall_forall in Hall. rewrite <- list_elem_of_In in Hd.
  rewrite (Hall d Hd). discriminate.
Qed.

(** C10: when the package of the file is "main" or include-all mode is on,
    and the package identifier cannot be derived, the collector returns the
    wrapped error at once: the finder is exactly as before (no declaration
    added, no package registered, counter not incremented), and only the two
    calls to the parser and to [filepath.Abs] were made. *)
Theorem C10_package_error_leaves_finder (w : World) (filename : string)
    (f : ParsedFile) (s s1 : State) (pkg : string) (err : error) :
  ParseFile w filename = inl f ->
  pkgName f = "main" \/ IncludeAll (finder s) = true ->
  getFullPkgName w filename (mkState (finder s) (trace s ++ [EvParseFile filename]))
  = Done (pkg, Some err) s1 ->
  readFuncsAndImportsFromFile w filename s = Done (Some (ErrMainPkgPath err)) s1
  /\ finder s1 = finder s
  /\ trace s1 = trace s ++ [EvParseFile filename; EvAbs filename].
Proof.
  intros Hp Hmain Hget.
  rewrite readFuncs_cases. cbv zeta. rewrite Hp.
  assert (Hc : String.eqb (pkgName f) "main" || IncludeAll (finder s) = true).
  { destruct Hmain as [-> | ->]; [reflexivity | apply orb_true_r]. }
  rewrite Hc, Hget. split; [reflexivity|].
  apply getFullPkgName_Done in Hget. subst s1. cbn.
  now rewrite <- app_assoc.
Qed.

Lemma C10_package_error_leaves_finder_witness :
  readFuncsAndImportsFromFile Demo.world_elsewhere Demo.main_go Demo.start
  = Done (Some (ErrMainPkgPath (ErrCdTryAgain "/go")))
      (mkState (finder Demo.start)
         [EvParseFile Demo.main_go; EvAbs Demo.main_go])
  /\ finder (mkState (finder Demo.start)
       [EvParseFile Demo.main_go; EvAbs Demo.main_go]) = finder Demo.start
  /\ trace (mkState (finder Demo.start)
       [EvParseFile Demo.main_go; EvAbs Demo.main_go])
     = trace Demo.start ++ [EvParseFile Demo.main_go; EvAbs Demo.main_go].
Proof.
  apply (C10_package_error_leaves_finder Demo.world_elsewhere Demo.main_go
           (mkParsedFile "main"
              [OtherNode; FuncDecl "main"; OtherNode; FuncDecl "zeta";
               FuncDecl "TestZeta"; FuncDecl "alpha"; FuncDecl "init"])
           Demo.start _ EmptyString (ErrCdTryAgain "/go")).
  - reflexivity.
  - left. reflexivity.
  - vm_compute. reflexivity.
Defined.

(** ** Panics *)

Lemma Run_total (w : World) (fileArgs : list string) (s : State) :
  exists r s', Run w fileArgs s = Done r s'.
Proof.
  destruct (Run_cases w fileArgs s)
    as [[_ E] | [(_ & _ & E) | (_ & _ & s1 & _ & E)]]; try (rewrite E; eauto).
  destruct (Idents (finder s)).
  - unfold findUnusedIdents, bind, getFinder, ret. eauto.
  - destruct (oraclePhase_spec w s1) as (r & s2 & E2 & _). eauto.
Qed.

(** C9: when the list of GOPATH roots is not empty, the access
    [goPaths[len(goPaths)-1]] is in bounds and [getFullPkgName] returns a
    package identifier or an error; when the list is empty the access is out
    of bounds, and [getFullPkgName] panics as soon as [filepath.Abs]
    succeeds, as does reading a file of package "main".  The list is empty
    exactly when GOPATH is, which [Run] checks first: [Run] never panics. *)
Theorem C9_getFullPkgName_total (w : World) (filename : string) (s : State) :
  (SplitList (GOPATH w) <> [] ->
     is_Some (index (SplitList (GOPATH w))
                (Z.of_nat (List.length (SplitList (GOPATH w))) - 1))
     /\ exists s',
          (exists pkg, getFullPkgName w filename s = Done (pkg, None) s')
          \/ (exists err, getFullPkgName w filename s = Done (EmptyString, Some err) s'))
  /\ (SplitList (GOPATH w) = [] ->
        index (SplitList (GOPATH w))
          (Z.of_nat (List.length (SplitList (GOPATH w))) - 1) = None
        /\ (forall abs, Abs w filename = inl abs ->
              exists s', getFullPkgName w filename s = Panic s')
        /\ (forall abs f,
              Abs w filename = inl abs -> ParseFile w filename = inl f ->
              pkgName f = "main" ->
              exists s', readFuncsAndImportsFromFile w filename s = Panic s'))
  /\ (SplitList (GOPATH w) = [] <-> GOPATH w = EmptyString)
  /\ (forall fileArgs, exists r s', Run w fileArgs s = Done r s').
Proof.
  split; [|split; [|split]].
  - intros Hgo. rewrite index_last.
    assert (Hl : is_Some (last (SplitList (GOPATH w)))).
    { destruct (last (SplitList (GOPATH w))) eqn:E; [eauto|].
      apply last_None in E. contradiction. }
    split; [exact Hl|]. destruct Hl as [root Hroot].
    rewrite getFullPkgName_cases. cbv zeta. eexists.
    destruct (Abs w filename) as [abs|err]; [|right; eauto].
    destruct (findRoot w abs _); [left; eauto|].
    rewrite Hroot. right. eauto.
  - intros Hgo. rewrite index_last, Hgo. split; [reflexivity|]. split.
    + intros abs Habs. rewrite getFullPkgName_cases, Habs, Hgo. cbn. eauto.
    + intros abs f Habs Hp Hmain.
      rewrite readFuncs_cases. cbv zeta.
      rewrite Hp, Hmain, getFullPkgName_cases, Habs, Hgo. cbn. eauto.
  - apply SplitList_nil.
  - intros fileArgs. apply Run_total.
Qed.

Example getFullPkgName_in_gopath :
  getFullPkgName Demo.world Demo.main_go Demo.start
  = Done ("app", None) (mkState (finder Demo.start) [EvAbs Demo.main_go]).
Proof. vm_compute. reflexivity. Qed.

Example getFullPkgName_outside_gopath :
  getFullPkgName Demo.world_elsewhere Demo.main_go Demo.start
  = Done (EmptyString, Some (ErrCdTryAgain "/go"))
      (mkState (finder Demo.start) [EvAbs Demo.main_go]).
Proof. vm_compute. reflexivity. Qed.

Example getFullPkgName_without_gopath :
  getFullPkgName Demo.world_no_gopath Demo.main_go Demo.start
  = Panic (mkState (finder Demo.start) [EvAbs Demo.main_go]).
Proof. vm_compute. reflexivity. Qed.

(** ** A file of a directory that does not parse *)

Lemma rangeUntilErr_app {A : Type} (body : A -> M (option error))
    (pre l : list A) (s s1 : State) :
  rangeUntilErr body pre s = Done None s1 ->
  rangeUntilErr body (pre ++ l) s = rangeUntilErr body l s1.
Proof.
  revert s. induction pre as [|x pre IH]; intros s H.
  - injection H as ->. reflexivity.
  - cbn [rangeUntilErr app] in *. unfold bind in *.
    destruct (body x s) as [[e|] s2|s2]; try discriminate.
    now apply IH.
Qed.

(** C3, as the specification states it, fails: [a.go] does not parse, and
    [b.go], which the walk of the same directory would offer next and which
    parses, is never read; its declaration is not collected. *)
Lemma C3_counterexample :
  walkEntries Demo.world Demo.lib_dir
  = [mkWalkEntry Demo.lib_dir true None; mkWalkEntry Demo.a_go false None;
     mkWalkEntry Demo.b_go false None]
  /\ eligible (finder Demo.start) Demo.b_go = true
  /\ ParseFile Demo.world Demo.b_go = inl (mkParsedFile "lib" [FuncDecl "helper"])
  /\ exists r s',
       Run Demo.world [Demo.lib_dir] Demo.start = Done r s'
       /\ funcs (finder s') = []
       /\ ~ In (EvParseFile Demo.b_go) (trace s').
Proof.
  split; [reflexivity|]. split; [reflexivity|]. split; [reflexivity|].
  eexists _, _. split; [vm_compute; reflexivity|].
  split; [reflexivity|]. cbn. intros H.
  repeat (destruct H as [H|H]; [discriminate H|]). exact H.
Qed.

(** C3, amended: when a file of a directory input fails to parse, the walk
    of that directory ends there: the declarations collected from the entries
    before it stay, no later entry of the directory is read, the error is
    written to the log followed by "Continuing...", and [Run]'s loop goes on
    with the input paths that follow. *)
Theorem C3_parse_failure_ends_directory (w : World) (dir : string)
    (rest : list string) (pre post : list WalkEntry) (e : WalkEntry)
    (err : error) (s s1 : State) :
  statIsDir w dir = true ->
  walkEntries w dir = pre ++ e :: post ->
  rangeUntilErr (walkFn w) pre
    (mkState (finder s) (trace s ++ [EvStat dir; EvWalk dir])) = Done None s1 ->
  wErr e = None -> wIsDir e = false ->
  eligible (finder s1) (wPath e) = true ->
  ParseFile w (wPath e) = inr err ->
  exists s2,
    readArg w dir s = Done tt s2
    /\ rangeAll (readArg w) (dir :: rest) s = rangeAll (readArg w) rest s2
    /\ funcs (finder s2) = funcs (finder s1)
    /\ LogWriter (finder s2)
       = LogWriter (finder s1) ++ [LErrReadingDir dir err; LContinuing]
    /\ trace s2 = trace s1 ++ [EvParseFile (wPath e)].
Proof.
  intros Hdir Hwalk Hpre He Hd Hel Hparse.
  assert (Hread : readDir w dir (mkState (finder s) (trace s ++ [EvStat dir]))
                  = Done (Some err)
                      (mkState (finder s1) (trace s1 ++ [EvParseFile (wPath e)]))).
  { unfold readDir.
    rewrite (bind_Done (emit (EvWalk dir)) _ _
               (mkState (finder s) (trace s ++ [EvStat dir; EvWalk dir])) tt)
      by (unfold emit; cbn; now rewrite <- app_assoc).
    rewrite Hwalk, (rangeUntilErr_app _ _ _ _ _ Hpre).
    cbn [rangeUntilErr].
    assert (Hfn : walkFn w e s1
                  = Done (Some err)
                      (mkState (finder s1) (trace s1 ++ [EvParseFile (wPath e)]))).
    { unfold walkFn. rewrite He, Hd. cbn [negb].
      rewrite (bind_Done _ _ _ _ _ (canReadSourceFile_eligible _ _ Hel)).
      rewrite readFuncs_cases. cbv zeta. now rewrite Hparse. }
    now rewrite (bind_Done _ _ _ _ _ Hfn). }
  assert (Harg : readArg w dir s
                 = Done tt
                     (mkState
                        (set_LogWriter
                           ((LogWriter (finder s1) ++ [LErrReadingDir dir err])
                            ++ [LContinuing]) (finder s1))
                        (trace s1 ++ [EvParseFile (wPath e)]))).
  { unfold readArg.
    rewrite (bind_Done (isDir w dir) _ s
               (mkState (finder s) (trace s ++ [EvStat dir])) true)
      by (unfold isDir, bind, emit, ret; now rewrite Hdir).
    now rewrite (bind_Done _ _ _ _ _ Hread). }
  eexists. split; [exact Harg|]. split.
  - cbn [rangeAll]. now rewrite (bind_Done _ _ _ _ _ Harg).
  - cbn. now rewrite <- app_assoc.
Qed.

Lemma C3_parse_failure_ends_directory_witness :
  exists s2,
    readArg Demo.world Demo.lib_dir Demo.start = Done tt s2
    /\ rangeAll (readArg Demo.world) [Demo.lib_dir; Demo.util_go] Demo.start
       = rangeAll (readArg Demo.world) [Demo.util_go] s2
    /\ funcs (finder s2) = funcs (finder Demo.start)
    /\ LogWriter (finder s2)
       = LogWriter (finder Demo.start)
         ++ [LErrReadingDir Demo.lib_dir (LibError "a.go:1:1: expected 'package'");
             LContinuing]
    /\ trace s2
       = [EvStat Demo.lib_dir; EvWalk Demo.lib_dir] ++ [EvParseFile Demo.a_go].
Proof.
  apply (C3_parse_failure_ends_directory Demo.world Demo.lib_dir [Demo.util_go]
           [mkWalkEntry Demo.lib_dir true None]
           [mkWalkEntry Demo.b_go false None]
           (mkWalkEntry Demo.a_go false None)
           (LibError "a.go:1:1: expected 'package'")
           Demo.start
           (mkState (finder Demo.start) [EvStat Demo.lib_dir; EvWalk Demo.lib_dir])).
  - reflexivity.
  - reflexivity.
  - reflexivity.
  - reflexivity.
  - reflexivity.
  - reflexivity.
  - reflexivity.
Defined.

Lemma C9_getFullPkgName_total_witness :
  is_Some (index (SplitList (GOPATH Demo.world))
             (Z.of_nat (List.length (SplitList (GOPATH Demo.world))) - 1))
  /\ exists s',
       (exists pkg,
          getFullPkgName Demo.world Demo.main_go Demo.start = Done (pkg, None) s')
       \/ (exists err,
             getFullPkgName Demo.world Demo.main_go Demo.start
             = Done (EmptyString, Some err) s').
Proof.
  apply (proj1 (C9_getFullPkgName_total Demo.world Demo.main_go Demo.start)).
  vm_compute. discriminate.
Defined.

Lemma C5_buildFileMap_index_witness :
  exists pre short,
    "a/b.c.f" = pre +:+ "." +:+ short
    /\ Contains short "." = false
    /\ addEntry {[ "f" := ["p0"] ]} (serial.mkCallGraph "a/b.c.f" "p1" [])
       = <[short := default [] (({[ "f" := ["p0"] ]} : gmap string (list string))
                                  !! short) ++ ["p1"]]> {[ "f" := ["p0"] ]}.
Proof.
  apply (proj1 (proj2 (proj2 (C5_buildFileMap_index NewUnusedFunctionFinder)))
           {[ "f" := ["p0"] ]} (serial.mkCallGraph "a/b.c.f" "p1" [])).
  reflexivity.
Defined.

(** * Further properties of the package *)

(** ** More on strings *)

Lemma append_length (a b : string) :
  String.length (a +:+ b) = String.length a + String.length b.
Proof.
  induction a as [|x a IH]; [reflexivity|].
  change (S (String.length (a +:+ b)) = S (String.length a + String.length b)).
  now rewrite IH.
Qed.

Lemma append_inj_l (a b c : string) : a +:+ c = b +:+ c -> a = b.
Proof.
  revert b. induction a as [|x a IH]; intros b H.
  - destruct b as [|y b]; [reflexivity|].
    apply (f_equal String.length) in H. rewrite !append_length in H.
    change (String.length (String y b)) with (S (String.length b)) in H.
    change (String.length EmptyString) with 0 in H. lia.
  - destruct b as [|y b].
    + apply (f_equal String.length) in H. rewrite !append_length in H.
      change (String.length (String x a)) with (S (String.length a)) in H.
      change (String.length EmptyString) with 0 in H. lia.
    + change (String x (a +:+ c) = String y (b +:+ c)) in H.
      injection H as -> H. f_equal. now apply IH.
Qed.

Lemma string_drop_append (p t : string) : string_drop (String.length p) (p +:+ t) = t.
Proof. induction p as [|x p IH]; cbn; [now destruct t | exact IH]. Qed.

Lemma string_drop_split (n : nat) (s : string) :
  n <= String.length s ->
  exists pre, s = pre +:+ string_drop n s /\ String.length pre = n.
Proof.
  revert s. induction n as [|n IH]; intros s Hn.
  - exists EmptyString. split; [now destruct s | reflexivity].
  - destruct s as [|x s]; [cbn in Hn; lia|].
    destruct (IH s) as [pre [Hs Hl]]; [cbn in Hn; lia|].
    exists (String x pre). split; [|cbn; now rewrite Hl].
    cbn [string_drop].
    change (String x s = String x (pre +:+ string_drop n s)). now rewrite <- Hs.
Qed.

(** [strings.HasSuffix] decides "ends with". *)
Lemma HasSuffix_true (s suffix : string) :
  HasSuffix s suffix = true <-> exists stem, s = stem +:+ suffix.
Proof.
  unfold HasSuffix. rewrite andb_true_iff, Nat.leb_le, String.eqb_eq. split.
  - intros [Hl Hd].
    destruct (string_drop_split (String.length s - String.length suffix) s)
      as [pre [Hs _]]; [lia|].
    exists pre. now rewrite Hd in Hs.
  - intros [stem ->]. rewrite append_length. split; [lia|].
    replace (String.length stem + String.length suffix - String.length suffix)
      with (String.length stem) by lia.
    apply string_drop_append.
Qed.

(** [strings.TrimPrefix] removes the prefix it is given. *)
Lemma TrimPrefix_append (p t : string) : TrimPrefix (p +:+ t) p = t.
Proof.
  unfold TrimPrefix.
  assert (H : HasPrefix (p +:+ t) p = true) by (apply HasPrefix_true; eauto).
  rewrite H. apply string_drop_append.
Qed.

Lemma append_cons (x : ascii) (a b : string) : String x a +:+ b = String x (a +:+ b).
Proof. reflexivity. Qed.

Lemma append_nil_l (b : string) : EmptyString +:+ b = b.
Proof. reflexivity. Qed.

Lemma free_of_cons (c x : ascii) (s : string) :
  free_of c (String x s) = negb (Ascii.eqb x c) && free_of c s.
Proof. reflexivity. Qed.

Lemma free_of_append_cons (c : ascii) (a b : string) :
  free_of c (a +:+ String c b) = false.
Proof.
  induction a as [|x a IH].
  - now rewrite append_nil_l, free_of_cons, Ascii.eqb_refl.
  - rewrite append_cons, free_of_cons, IH. apply andb_false_r.
Qed.

(** A string is cut at the first occurrence of a byte in one way only. *)
Lemma first_byte_split (c : ascii) (a1 a2 r1 r2 : string) :
  free_of c a1 = true -> free_of c a2 = true ->
  a1 +:+ String c r1 = a2 +:+ String c r2 -> a1 = a2 /\ r1 = r2.
Proof.
  revert a2. induction a1 as [|x a1 IH]; intros a2 H1 H2 E.
  - destruct a2 as [|y a2].
    + rewrite !append_nil_l in E. injection E as ->. auto.
    + rewrite append_nil_l, append_cons in E. injection E as <- _.
      rewrite free_of_cons, Ascii.eqb_refl in H2. discriminate.
  - destruct a2 as [|y a2].
    + rewrite append_nil_l, append_cons in E. injection E as -> _.
      rewrite free_of_cons, Ascii.eqb_refl in H1. discriminate.
    + rewrite !append_cons in E. injection E as -> E.
      rewrite free_of_cons in H1, H2.
      apply andb_true_iff in H1, H2. destruct H1 as [_ H1], H2 as [_ H2].
      destruct (IH a2 H1 H2 E) as [-> ->]. auto.
Qed.

(** ** Rendering a finding *)

(** X1: the rendering of [UnusedThing.String] tells two findings apart as
    soon as their names hold no space, as the names of Go functions do. *)
Theorem String_injective_on_identifiers (a b : UnusedThing) :
  free_of " "%char (Name a) = true ->
  free_of " "%char (Name b) = true ->
  UnusedThing_String a = UnusedThing_String b -> a = b.
Proof.
  destruct a as [n1 f1], b as [n2 f2]. unfold UnusedThing_String. cbn.
  intros H1 H2 E.
  destruct (String.eqb_spec f1 EmptyString) as [->|Hf1];
    destruct (String.eqb_spec f2 EmptyString) as [->|Hf2]; cbn in E.
  - now rewrite E.
  - rewrite E in H1.
    change (n2 +:+ " in '" +:+ f2 +:+ "'")
      with (n2 +:+ String " "%char ("in '" +:+ f2 +:+ "'")) in H1.
    rewrite free_of_append_cons in H1. discriminate.
  - rewrite <- E in H2.
    change (n1 +:+ " in '" +:+ f1 +:+ "'")
      with (n1 +:+ String " "%char ("in '" +:+ f1 +:+ "'")) in H2.
    rewrite free_of_append_cons in H2. discriminate.
  - change (n1 +:+ String " "%char ("in '" +:+ f1 +:+ "'")
            = n2 +:+ String " "%char ("in '" +:+ f2 +:+ "'")) in E.
    destruct (first_byte_split _ _ _ _ _ H1 H2 E) as [-> Er].
    change (String "i" (String "n" (String " " (String "'" (f1 +:+ "'"))))
            = String "i" (String "n" (String " " (String "'" (f2 +:+ "'")))))
      in Er.
    injection Er as Er. apply append_inj_l in Er. now rewrite Er.
Qed.

Lemma String_injective_on_identifiers_witness :
  mkUnusedThing "zeta" Demo.main_go = mkUnusedThing "zeta" Demo.main_go.
Proof.
  apply (String_injective_on_identifiers
           (mkUnusedThing "zeta" Demo.main_go) (mkUnusedThing "zeta" Demo.main_go));
    reflexivity.
Defined.

(** Without the condition on the names two findings can read the same. *)
Example String_collision :
  UnusedThing_String (mkUnusedThing "a" "b")
  = UnusedThing_String (mkUnusedThing "a in 'b'" EmptyString).
Proof. reflexivity. Qed.

(** ** [isNotStandardLibrary] *)

Lemma ContainsRune_Contains (s : string) (r : ascii) :
  ContainsRune s r = Contains s (String r EmptyString).
Proof.
  induction s as [|a s IH]; [reflexivity|].
  change (Contains (String a s) (String r EmptyString))
    with ((if Ascii.eqb r a then true else false)
          || Contains s (String r EmptyString)).
  change (ContainsRune (String a s) r)
    with (if Ascii.eqb a r then true else ContainsRune s r).
  rewrite IH, (Ascii.eqb_sym a r). now destruct (Ascii.eqb r a).
Qed.

(** X2: [isNotStandardLibrary] accepts exactly the package paths that hold a
    dot somewhere, which are also exactly the names for which
    [strings.LastIndex(name, ".")] finds a separator. *)
Theorem isNotStandardLibrary_dot (pkg : string) :
  (isNotStandardLibrary pkg = true <-> substring_of "." pkg)
  /\ (isNotStandardLibrary pkg = false <-> LastIndex pkg "." = (-1)%Z).
Proof.
  unfold isNotStandardLibrary. rewrite ContainsRune_Contains. split.
  - apply Contains_true.
  - destruct (LastIndex_dot pkg) as [[Hr Hc] | [Hr [pre [Hs Hc]]]].
    + rewrite Hr, Hc. tauto.
    + assert (Contains pkg "." = true) by (apply Contains_true; red; eauto).
      split; [congruence | lia].
Qed.

(** ** [canReadSourceFile] *)

(** X3: [canReadSourceFile] answers true exactly for the paths that end in
    ".go" and that the ignore filter, when set, does not occur in; a true
    answer leaves the state alone, and a false one writes at most the
    "Ignoring path" line. *)
Theorem canReadSourceFile_decides (filename : string) (s : State) :
  exists b s',
    canReadSourceFile filename s = Done b s'
    /\ (b = true
        <-> (Ignore (finder s) = EmptyString
             \/ ~ substring_of (Ignore (finder s)) filename)
            /\ exists stem, filename = stem +:+ ".go")
    /\ (b = true -> s' = s)
    /\ trace s' = trace s
    /\ funcs (finder s') = funcs (finder s)
    /\ pkgs (finder s') = pkgs (finder s)
    /\ (LogWriter (finder s') = LogWriter (finder s)
        \/ LogWriter (finder s') = LogWriter (finder s) ++ [LIgnoringPath filename]).
Proof.
  destruct s as [[cg ig v ia lw cj id eo sm fb pk fu nf] tr].
  unfold canReadSourceFile, bind, getFinder, Logf, modifyFinder, ret.
  cbn [finder trace Ignore Verbose funcs pkgs LogWriter].
  pose proof (HasSuffix_true filename ".go") as HS.
  pose proof (Contains_true filename ig) as HC.
  destruct (String.eqb_spec ig EmptyString) as [->|Hig]; cbn [negb andb].
  - destruct (HasSuffix filename ".go"); cbn [negb]; eexists _, _;
      (split; [reflexivity|]); cbn [finder trace Ignore Verbose funcs pkgs LogWriter];
      intuition congruence.
  - destruct (Contains filename ig).
    + destruct v; eexists _, _; (split; [reflexivity|]);
        cbn [finder trace Ignore Verbose funcs pkgs LogWriter set_LogWriter];
        intuition congruence.
    + destruct (HasSuffix filename ".go"); cbn [negb]; eexists _, _;
        (split; [reflexivity|]); cbn [finder trace Ignore Verbose funcs pkgs LogWriter];
        intuition congruence.
Qed.

(** ** [getFullPkgName] *)

Lemma findRoot_Some (w : World) (abs pkg : string) (roots : list string) :
  findRoot w abs roots = Some pkg
  <-> exists before root after rest,
        roots = before ++ root :: after
        /\ Forall (fun r => HasPrefix abs (Join w r "src" +:+ Separator) = false) before
        /\ abs = (Join w root "src" +:+ Separator) +:+ rest
        /\ pkg = Dir w rest.
Proof.
  split.
  - induction roots as [|p roots IH]; [discriminate|].
    cbn [findRoot]. cbv zeta.
    destruct (HasPrefix abs (Join w p "src" +:+ Separator)) eqn:E; cbn [negb].
    + intros [= <-]. apply HasPrefix_true in E. destruct E as [t Ht].
      exists [], p, roots, t. split; [reflexivity|]. split; [constructor|].
      split; [exact Ht|]. rewrite Ht at 1. now rewrite TrimPrefix_append.
    + intros H. destruct (IH H) as (before & root & after & rest & -> & Hb & Ha & Hp).
      exists (p :: before), root, after, rest. split; [reflexivity|].
      split; [now constructor | auto].
  - intros (before & root & after & rest & -> & Hb & Ha & ->).
    induction Hb as [|p before Hp Hb IH].
    + cbn [app findRoot]. cbv zeta.
      assert (E : HasPrefix abs (Join w root "src" +:+ Separator) = true)
        by (apply HasPrefix_true; eauto).
      rewrite E. cbn [negb]. rewrite Ha at 1. now rewrite TrimPrefix_append.
    + cbn [app findRoot]. cbv zeta. rewrite Hp. cbn [negb]. exact IH.
Qed.

Lemma findRoot_None (w : World) (abs : string) (roots : list string) :
  findRoot w abs roots = None
  <-> Forall (fun r => HasPrefix abs (Join w r "src" +:+ Separator) = false) roots.
Proof.
  induction roots as [|p roots IH].
  - split; [constructor | reflexivity].
  - cbn [findRoot]. cbv zeta.
    destruct (HasPrefix abs (Join w p "src" +:+ Separator)) eqn:E; cbn [negb].
    + split; [discriminate | intros H; inversion H; congruence].
    + rewrite IH. split; [now constructor | intros H; now inversion H].
Qed.

(** X4: once [filepath.Abs] has succeeded and GOPATH holds a root,
    [getFullPkgName] returns a package exactly when some root's "src"
    directory is a prefix of the absolute path, and then the directory of the
    path below the first such root in GOPATH order; when no root is a prefix
    it returns the error that names the last root. *)
Theorem getFullPkgName_first_root (w : World) (filename abs : string) (s : State) :
  Abs w filename = inl abs ->
  SplitList (GOPATH w) <> [] ->
  (forall pkg,
     (exists s', getFullPkgName w filename s = Done (pkg, None) s')
     <-> exists before root after rest,
           SplitList (GOPATH w) = before ++ root :: after
           /\ Forall (fun r => HasPrefix abs (Join w r "src" +:+ Separator) = false)
                before
           /\ abs = (Join w root "src" +:+ Separator) +:+ rest
           /\ pkg = Dir w rest)
  /\ (forall name err s',
        getFullPkgName w filename s = Done (name, Some err) s' ->
        name = EmptyString
        /\ Forall (fun r => HasPrefix abs (Join w r "src" +:+ Separator) = false)
             (SplitList (GOPATH w))
        /\ exists root, last (SplitList (GOPATH w)) = Some root
                        /\ err = ErrCdTryAgain root).
Proof.
  intros Habs Hroots. split.
  - intros pkg. rewrite <- findRoot_Some, getFullPkgName_cases, Habs. cbv zeta.
    destruct (findRoot w abs (SplitList (GOPATH w))) as [p|].
    + split; [intros [s' [= ->]]; reflexivity | intros [= ->]; eauto].
    + split; [|discriminate].
      destruct (last (SplitList (GOPATH w))); intros [s' H]; discriminate.
  - intros name err s'. rewrite getFullPkgName_cases, Habs. cbv zeta.
    destruct (findRoot w abs (SplitList (GOPATH w))) as [p|] eqn:E;
      [discriminate|].
    apply findRoot_None in E.
    destruct (last (SplitList (GOPATH w))) as [root|]; [|discriminate].
    intros [= <- <- _]. eauto.
Qed.

Lemma getFullPkgName_first_root_witness :
  exists s',
    getFullPkgName Demo.world Demo.main_go Demo.start = Done ("app", None) s'.
Proof.
  apply (proj1 (getFullPkgName_first_root Demo.world Demo.main_go Demo.main_go
                  Demo.start eq_refl ltac:(vm_compute; discriminate)) "app").
  exists ["/opt/go"], "/go", [], "app/main.go".
  split; [reflexivity|]. split; [now repeat constructor|].
  split; reflexivity.
Defined.

(** ** [readFuncsAndImportsFromFile] *)

(** X5: when [readFuncsAndImportsFromFile] returns an error, the finder is
    exactly as it was: no declaration, no package, no count; the error is the
    parser's own, or the wrapped error of the package lookup of a file that
    is of package "main" or read in include-all mode. *)
Theorem readFuncs_error_keeps_finder (w : World) (filename : string)
    (s s' : State) (e : error) :
  readFuncsAndImportsFromFile w filename s = Done (Some e) s' ->
  finder s' = finder s
  /\ (ParseFile w filename = inr e
      \/ exists f cause,
           ParseFile w filename = inl f
           /\ e = ErrMainPkgPath cause
           /\ (pkgName f = "main" \/ IncludeAll (finder s) = true)).
Proof.
  rewrite readFuncs_cases. cbv zeta.
  destruct (ParseFile w filename) as [f|err].
  - destruct (String.eqb (pkgName f) "main" || IncludeAll (finder s)) eqn:Hc.
    + destruct (getFullPkgName w filename _) as [[pkg [c|]] s1|s1] eqn:E.
      * intros [= <- <-]. apply getFullPkgName_Done in E. subst s1.
        split; [reflexivity|]. right. exists f, c.
        split; [reflexivity|]. split; [reflexivity|].
        apply orb_true_iff in Hc. rewrite String.eqb_eq in Hc. exact Hc.
      * destruct (AddPkg_state pkg s1) as (s2 & E2 & _).
        rewrite E2. cbn [final_state].
        destruct (read_tail filename f s2) as (s3 & E3 & _).
        rewrite E3. discriminate.
      * discriminate.
    + destruct (read_tail filename f
                  (mkState (finder s) (trace s ++ [EvParseFile filename])))
        as (s3 & E3 & _).
      rewrite E3. discriminate.
  - intros [= <- <-]. split; [reflexivity | now left].
Qed.

Lemma readFuncs_error_keeps_finder_witness :
  finder (mkState (finder Demo.start) [EvParseFile Demo.a_go]) = finder Demo.start
  /\ (ParseFile Demo.world Demo.a_go = inr (LibError "a.go:1:1: expected 'package'")
      \/ exists f cause,
           ParseFile Demo.world Demo.a_go = inl f
           /\ LibError "a.go:1:1: expected 'package'" = ErrMainPkgPath cause
           /\ (pkgName f = "main" \/ IncludeAll (finder Demo.start) = true)).
Proof.
  apply (readFuncs_error_keeps_finder Demo.world Demo.a_go Demo.start).
  reflexivity.
Defined.

Lemma wrap_int_range (z : Z) : (- 2 ^ 63 <= wrap_int z < 2 ^ 63)%Z.
Proof.
  unfold wrap_int. pose proof (Z.mod_pos_bound (z + 2 ^ 63) (2 ^ 64)). lia.
Qed.

Lemma wrap_int_small (z : Z) : (- 2 ^ 63 <= z < 2 ^ 63)%Z -> wrap_int z = z.
Proof. intros H. unfold wrap_int. rewrite Z.mod_small; lia. Qed.

(** X6: a read that returns no error has parsed the file and counted it:
    the files-read counter goes up by one (staying a 64-bit integer); a
    package is registered exactly when the file is of package "main" or
    include-all mode is on, and only then was [filepath.Abs] called. *)
Theorem readFuncs_success_counts (w : World) (filename : string) (s s' : State) :
  readFuncsAndImportsFromFile w filename s = Done None s' ->
  numFilesRead (finder s') = wrap_int (numFilesRead (finder s) + 1)
  /\ ((- 2 ^ 63 <= numFilesRead (finder s) < 2 ^ 63 - 1)%Z ->
      numFilesRead (finder s') = (numFilesRead (finder s) + 1)%Z)
  /\ exists f,
       ParseFile w filename = inl f
       /\ if String.eqb (pkgName f) "main" || IncludeAll (finder s)
          then exists pkg,
                 pkgs (finder s') = {[pkg]} ∪ pkgs (finder s)
                 /\ trace s' = trace s ++ [EvParseFile filename; EvAbs filename]
          else pkgs (finder s') = pkgs (finder s)
               /\ trace s' = trace s ++ [EvParseFile filename].
Proof.
  intros HR.
  assert (H : numFilesRead (finder s') = wrap_int (numFilesRead (finder s) + 1)
              /\ exists f,
                   ParseFile w filename = inl f
                   /\ if String.eqb (pkgName f) "main" || IncludeAll (finder s)
                      then exists pkg,
                             pkgs (finder s') = {[pkg]} ∪ pkgs (finder s)
                             /\ trace s'
                                = trace s ++ [EvParseFile filename; EvAbs filename]
                      else pkgs (finder s') = pkgs (finder s)
                           /\ trace s' = trace s ++ [EvParseFile filename]).
  { rewrite readFuncs_cases in HR. cbv zeta in HR.
    destruct (ParseFile w filename) as [f|err]; [|discriminate].
    destruct (String.eqb (pkgName f) "main" || IncludeAll (finder s)) eqn:Hc.
    - destruct (getFullPkgName w filename _) as [[pkg [c|]] s1|s1] eqn:E;
        try discriminate.
      apply getFullPkgName_Done in E.
      destruct (AddPkg_state pkg s1) as (s2 & E2 & _ & Hp2 & Hn2 & Ht2).
      rewrite E2 in HR. cbn [final_state] in HR.
      destruct (read_tail filename f s2) as (s3 & E3 & _ & Hp3 & Hn3 & Ht3).
      rewrite E3 in HR. injection HR as <-.
      rewrite Hn3, Hn2, E. split; [reflexivity|].
      exists f. split; [reflexivity|]. rewrite Hc. exists pkg.
      rewrite Hp3, Hp2, Ht3, Ht2, E. cbn. now rewrite <- app_assoc.
    - destruct (read_tail filename f
                  (mkState (finder s) (trace s ++ [EvParseFile filename])))
        as (s3 & E3 & _ & Hp3 & Hn3 & Ht3).
      rewrite E3 in HR. injection HR as <-.
      split; [exact Hn3|]. exists f. split; [reflexivity|]. now rewrite Hc. }
  destruct H as [Hn Hf]. split; [exact Hn|]. split; [|exact Hf].
  intros Hr. rewrite Hn. apply wrap_int_small. lia.
Qed.

Lemma readFuncs_success_counts_witness :
  numFilesRead (finder (final_state
    (readFuncsAndImportsFromFile Demo.world Demo.main_go Demo.start))) = 1%Z.
Proof.
  apply (proj1 (readFuncs_success_counts Demo.world Demo.main_go Demo.start
                  (final_state
                     (readFuncsAndImportsFromFile Demo.world Demo.main_go Demo.start))
                  ltac:(vm_compute; reflexivity))).
Defined.

(** ** More on the caller index and the unused set *)

Lemma isInCG_buildFileMap (uff : UnusedFuncFinder) (d : UnusedThing) :
  isInCG (buildFileMap uff) d
  = isInCG uff d
    || existsb (fun path => Contains path (File d))
         (positionsFor (Name d) (default [] (Callgraph uff))).
Proof.
  unfold isInCG, buildFileMap. cbn [filesByCaller set_filesByCaller].
  rewrite fold_addEntry_lookup.
  destruct (filesByCaller uff !! Name d) as [old|];
    destruct (positionsFor (Name d) (default [] (Callgraph uff))) as [|p ps];
    cbn [appended default]; try reflexivity.
  - now rewrite app_nil_r, orb_false_r.
  - now rewrite existsb_app.
Qed.

Lemma filter_sublist_weaker {A : Type} (p q : A -> bool) (l : list A) :
  (forall x, p x = true -> q x = true) ->
  sublist (List.filter p l) (List.filter q l).
Proof.
  intros H. induction l as [|x l IH]; cbn; [constructor|].
  destruct (p x) eqn:Ep.
  - rewrite (H x Ep). now constructor.
  - destruct (q x); [now constructor | exact IH].
Qed.

(** X7: building the index can only take findings away: what is unused
    after [buildFileMap] is a subsequence of what was unused before it. *)
Theorem buildFileMap_shrinks_findings (uff : UnusedFuncFinder) :
  sublist (computeUnusedFuncs (buildFileMap uff)) (computeUnusedFuncs uff).
Proof.
  rewrite !computeUnusedFuncs_filter.
  change (funcs (buildFileMap uff)) with (funcs uff).
  apply filter_sublist_weaker. intros d.
  rewrite isInCG_buildFileMap, !negb_true_iff, orb_false_iff. tauto.
Qed.

(** X8: [buildFileMap] is not idempotent on the index (a second pass
    appends every position again), yet a second pass over the same call
    graph changes no verdict: the unused set is the same. *)
Theorem buildFileMap_twice_same_findings (uff : UnusedFuncFinder) :
  computeUnusedFuncs (buildFileMap (buildFileMap uff))
  = computeUnusedFuncs (buildFileMap uff)
  /\ forall k,
       filesByCaller (buildFileMap (buildFileMap uff)) !! k
       = appended (filesByCaller (buildFileMap uff) !! k)
           (positionsFor k (default [] (Callgraph uff))).
Proof.
  split.
  - rewrite !computeUnusedFuncs_filter.
    change (funcs (buildFileMap (buildFileMap uff))) with (funcs uff).
    change (funcs (buildFileMap uff)) with (funcs uff).
    apply filter_ext. intros d. f_equal.
    rewrite (isInCG_buildFileMap (buildFileMap uff)).
    change (Callgraph (buildFileMap uff)) with (Callgraph uff).
    rewrite isInCG_buildFileMap.
    now destruct (isInCG uff d), (existsb _ _).
  - intros k. unfold buildFileMap at 1. cbn [filesByCaller set_filesByCaller].
    change (Callgraph (buildFileMap uff)) with (Callgraph uff).
    apply fold_addEntry_lookup.
Qed.

(** X9: the keys of the index after [buildFileMap] are the keys it had
    and the short names of the edges; a key that was not there before holds
    no separator, and no entry is ever removed or shortened. *)
Theorem buildFileMap_keys (uff : UnusedFuncFinder) (k : string) :
  (is_Some (filesByCaller (buildFileMap uff) !! k)
   <-> is_Some (filesByCaller uff !! k)
       \/ exists e, In e (default [] (Callgraph uff))
                    /\ afterLastSep (serial.Name e) = Some k)
  /\ (filesByCaller uff !! k = None ->
      is_Some (filesByCaller (buildFileMap uff) !! k) ->
      Contains k "." = false)
  /\ (forall old, filesByCaller uff !! k = Some old ->
        exists more, filesByCaller (buildFileMap uff) !! k = Some (old ++ more)).
Proof.
  unfold buildFileMap. cbn [filesByCaller set_filesByCaller].
  rewrite fold_addEntry_lookup.
  assert (Hpos : positionsFor k (default [] (Callgraph uff)) <> []
                 <-> exists e, In e (default [] (Callgraph uff))
                               /\ afterLastSep (serial.Name e) = Some k).
  { unfold positionsFor. split.
    - intros H.
      destruct (filter (fun e => afterLastSep (serial.Name e) = Some k)
                  (default [] (Callgraph uff))) as [|e l] eqn:E;
        [contradiction|].
      assert (He : e ∈ filter (fun e => afterLastSep (serial.Name e) = Some k)
                     (default [] (Callgraph uff)))
        by (rewrite E; constructor).
      apply list_elem_of_filter in He. destruct He as [Hk Hin].
      exists e. split; [now apply list_elem_of_In | exact Hk].
    - intros [e [Hin Hk]] H. apply fmap_nil_inv in H.
      assert (He : e ∈ filter (fun e => afterLastSep (serial.Name e) = Some k)
                     (default [] (Callgraph uff))).
      { apply list_elem_of_filter. split; [exact Hk | now apply list_elem_of_In]. }
      rewrite H in He. inversion He. }
  split; [|split].
  - rewrite <- Hpos.
    destruct (filesByCaller uff !! k) as [old|];
      destruct (positionsFor k (default [] (Callgraph uff))) as [|p ps];
      cbn [appended]; split; intros H; eauto.
    destruct H as [H|H]; [exact H | now destruct H].
  - intros Hn. rewrite Hn.
    destruct (positionsFor k (default [] (Callgraph uff))) as [|p ps] eqn:E;
      cbn [appended]; [intros [x H]; discriminate|].
    intros _.
    assert (Hne : p :: ps <> []) by discriminate.
    apply Hpos in Hne. destruct Hne as [e [_ Hk]].
    apply afterLastSep_Some in Hk. destruct Hk as [pre [_ Hc]]. exact Hc.
  - intros old Ho. rewrite Ho.
    exists (positionsFor k (default [] (Callgraph uff))).
    now destruct (positionsFor k (default [] (Callgraph uff))).
Qed.

Lemma buildFileMap_keys_witness :
  exists more,
    filesByCaller
      (buildFileMap
         (set_Callgraph (Some Demo.graph)
            (set_filesByCaller {[ "used" := ["p0"] ]} NewUnusedFunctionFinder)))
      !! "used"
    = Some (["p0"] ++ more).
Proof.
  apply (proj2 (proj2 (buildFileMap_keys
           (set_Callgraph (Some Demo.graph)
              (set_filesByCaller {[ "used" := ["p0"] ]} NewUnusedFunctionFinder))
           "used"))).
  reflexivity.
Defined.

(** ** What a run does to the log, the packages and the parser *)

Lemma eligible_Ignore (u u' : UnusedFuncFinder) (p : string) :
  Ignore u' = Ignore u -> eligible u' p = eligible u p.
Proof. intros H. unfold eligible. now rewrite H. Qed.

Lemma eligible_true (u : UnusedFuncFinder) (p : string) :
  eligible u p = true
  <-> (Ignore u = EmptyString \/ ~ substring_of (Ignore u) p)
      /\ exists stem, p = stem +:+ ".go".
Proof.
  unfold eligible.
  rewrite andb_true_iff, negb_true_iff, andb_false_iff, negb_false_iff,
    String.eqb_eq, Contains_false, HasSuffix_true.
  reflexivity.
Qed.

Lemma audited_refl (s : State) : audited s s.
Proof.
  constructor; try reflexivity.
  - exists []. now rewrite app_nil_r.
  - exists []. split; [now rewrite app_nil_r | intros p []].
Qed.

Lemma audited_trans (s1 s2 s3 : State) :
  audited s1 s2 -> audited s2 s3 -> audited s1 s3.
Proof.
  intros [I1 V1 P1 [l1 [Hl1 He1]] [e1 [Ht1 Hp1]]]
         [I2 V2 P2 [l2 [Hl2 He2]] [e2 [Ht2 Hp2]]].
  constructor; try congruence.
  - now transitivity (pkgs (finder s2)).
  - exists (l1 ++ l2). split; [now rewrite Hl2, Hl1, app_assoc|].
    intros Hv. rewrite forallb_app, (He1 Hv), He2; [reflexivity | congruence].
  - exists (e1 ++ e2). split; [now rewrite Ht2, Ht1, app_assoc|].
    intros p Hin. apply in_app_or in Hin. destruct Hin as [Hin|Hin].
    + now apply Hp1.
    + rewrite <- (eligible_Ignore (finder s1) (finder s2) p I1). now apply Hp2.
Qed.

#[global] Instance audited_preorder : PreOrder audited.
Proof. split; [exact audited_refl | exact audited_trans]. Qed.

Lemma audited_modify (f : UnusedFuncFinder -> UnusedFuncFinder) :
  (forall u, Ignore (f u) = Ignore u /\ Verbose (f u) = Verbose u
             /\ pkgs u ⊆ pkgs (f u)
             /\ exists lines,
                  LogWriter (f u) = LogWriter u ++ lines
                  /\ (Verbose u = false -> forallb is_error_line lines = true)) ->
  steps audited (modifyFinder f).
Proof.
  intros Hf s. exists tt, (mkState (f (finder s)) (trace s)).
  split; [reflexivity|].
  destruct (Hf (finder s)) as (? & ? & ? & ?).
  constructor; cbn; try assumption.
  exists []. split; [now rewrite app_nil_r | intros p []].
Qed.

Lemma audited_Logf (l : LogLine) : steps audited (Logf l).
Proof.
  apply audited_modify.
  intros [cg ig v ia lw cj id eo sm fb pk fu nf]. cbn.
  destruct v; cbn; repeat split; try reflexivity.
  - exists [l]. split; [reflexivity | discriminate].
  - exists []. split; [now rewrite app_nil_r | reflexivity].
Qed.

Lemma audited_Errorf (l : LogLine) :
  is_error_line l = true -> steps audited (Errorf l).
Proof.
  intros Hl. apply audited_modify. intros u. cbn. repeat split; try reflexivity.
  exists [l]. split; [reflexivity|]. intros _. cbn. now rewrite Hl.
Qed.

Lemma audited_keep (f : UnusedFuncFinder -> UnusedFuncFinder) :
  (forall u, Ignore (f u) = Ignore u /\ Verbose (f u) = Verbose u
             /\ pkgs u ⊆ pkgs (f u) /\ LogWriter (f u) = LogWriter u) ->
  steps audited (modifyFinder f).
Proof.
  intros Hf. apply audited_modify. intros u.
  destruct (Hf u) as (? & ? & ? & Hl). repeat split; try assumption.
  exists []. split; [now rewrite app_nil_r | reflexivity].
Qed.

Lemma audited_emit (e : Event) :
  (forall p, e <> EvParseFile p) -> steps audited (emit e).
Proof.
  intros He s. exists tt, (mkState (finder s) (trace s ++ [e])).
  split; [reflexivity|]. constructor; cbn; try reflexivity.
  - exists []. now rewrite app_nil_r.
  - exists [e]. split; [reflexivity|].
    intros p [Hp|[]]. destruct (He p Hp).
Qed.

Lemma audited_AddPkg (pkg : string) : steps audited (AddPkg pkg).
Proof.
  apply steps_bind; [apply _ | | intros _; apply audited_Logf].
  apply audited_keep. intros u. cbn. repeat split; try reflexivity.
  set_solver.
Qed.

Lemma audited_inspectNode (filename : string) (n : Node) :
  steps audited (inspectNode filename n).
Proof.
  unfold inspectNode.
  set (name := match n with FuncDecl name => name | OtherNode => EmptyString end).
  destruct (negb (String.eqb name EmptyString)); [|apply steps_ret, _].
  destruct (excluded name); [apply steps_ret, _|].
  apply audited_keep. intros u. now cbn.
Qed.

(** [canReadSourceFile] within a run: its answer is [eligible]. *)
Lemma audited_canReadSourceFile (filename : string) :
  yields (canReadSourceFile filename)
    (fun s b s' => audited s s' /\ b = eligible (finder s') filename).
Proof.
  intros s.
  assert (HL : steps audited (Logf (LIgnoringPath filename)))
    by apply audited_Logf.
  unfold canReadSourceFile, bind, getFinder, eligible.
  destruct (negb (String.eqb (Ignore (finder s)) EmptyString)
            && Contains filename (Ignore (finder s))) eqn:E.
  - destruct (HL s) as ([] & s1 & E1 & A1). rewrite E1.
    exists false, s1. split; [reflexivity|]. split; [exact A1|].
    now rewrite (au_Ignore _ _ A1), E.
  - exists (HasSuffix filename ".go"), s. rewrite E.
    split; [now destruct (HasSuffix filename ".go")|].
    split; [reflexivity | reflexivity].
Qed.

Section AuditWithGopath.
Variable w : World.
Hypothesis gopath_set : GOPATH w <> EmptyString.

Lemma audited_getFullPkgName (filename : string) :
  steps audited (getFullPkgName w filename).
Proof.
  apply steps_bind; [apply _ | apply audited_emit; discriminate | intros _].
  destruct (Abs w filename) as [abs|err]; [|apply steps_ret, _].
  cbv beta iota zeta.
  destruct (findRoot w abs (SplitList (GOPATH w))); [apply steps_ret, _|].
  rewrite index_last.
  destruct (last (SplitList (GOPATH w))) as [root|] eqn:E; [apply steps_ret, _|].
  apply last_None, SplitList_nil in E. contradiction.
Qed.

(** Reading a file that passed [canReadSourceFile]. *)
Lemma audited_readFuncsAndImportsFromFile (filename : string) (s : State) :
  eligible (finder s) filename = true ->
  exists r s', readFuncsAndImportsFromFile w filename s = Done r s' /\ audited s s'.
Proof.
  intros Hel.
  assert (Hrest : steps audited
            (match ParseFile w filename with
             | inr err => ret (Some err)
             | inl f =>
                 u <- getFinder ;;
                 r <- (if String.eqb (pkgName f) "main" || IncludeAll u then
                         res <- getFullPkgName w filename ;;
                         let '(pkg, err) := res in
                         match err with
                         | Some e => ret (Some (ErrMainPkgPath e))
                         | None => AddPkg pkg ;; ret None
                         end
                       else ret None) ;;
                 match r with
                 | Some e => ret (Some e)
                 | None =>
                     rangeAll (inspectNode filename) (nodes f) ;;
                     modifyFinder
                       (fun u => set_numFilesRead (wrap_int (numFilesRead u + 1)) u) ;;
                     ret None
                 end
             end)).
  { destruct (ParseFile w filename) as [f|err]; [|apply steps_ret, _].
    apply steps_bind; [apply _ | apply steps_getFinder, _ | intros u].
    apply steps_bind; [apply _ | | intros [e|]].
    - destruct (_ || _); [|apply steps_ret, _].
      apply steps_bind; [apply _ | apply audited_getFullPkgName | intros [pkg [e|]]].
      + apply steps_ret, _.
      + apply steps_bind; [apply _ | apply audited_AddPkg | intros _; apply steps_ret, _].
    - apply steps_ret, _.
    - apply steps_bind; [apply _ | | intros _].
      + apply steps_rangeAll; [apply _ | intros n; apply audited_inspectNode].
      + apply steps_bind; [apply _ | | intros _; apply steps_ret, _].
        apply audited_keep. intros u'. now cbn. }
  destruct (Hrest (mkState (finder s) (trace s ++ [EvParseFile filename])))
    as (r & s' & E & A).
  exists r, s'. split; [exact E|].
  transitivity (mkState (finder s) (trace s ++ [EvParseFile filename]));
    [|exact A].
  constructor; cbn; try reflexivity.
  - exists []. now rewrite app_nil_r.
  - exists [EvParseFile filename]. split; [reflexivity|].
    intros p [[= <-]|[]]. exact Hel.
Qed.

Lemma audited_walkFn (e : WalkEntry) : steps audited (walkFn w e).
Proof.
  unfold walkFn. destruct (wErr e); [apply steps_ret, _|].
  destruct (negb (wIsDir e)); [|apply steps_ret, _].
  intros s.
  destruct (audited_canReadSourceFile (wPath e) s) as (b & s1 & E1 & A1 & Hb).
  rewrite (bind_Done _ _ _ _ _ E1). destruct b.
  - destruct (audited_readFuncsAndImportsFromFile (wPath e) s1 (eq_sym Hb))
      as (r & s2 & E2 & A2).
    exists r, s2. split; [exact E2 | now transitivity s1].
  - exists None, s1. split; [reflexivity | exact A1].
Qed.

Lemma audited_readDir (dirname : string) : steps audited (readDir w dirname).
Proof.
  apply steps_bind; [apply _ | apply audited_emit; discriminate | intros _].
  apply steps_rangeUntilErr; [apply _ | apply audited_walkFn].
Qed.

Lemma audited_readArg (filename : string) : steps audited (readArg w filename).
Proof.
  apply steps_bind; [apply _ | | intros [|]].
  - apply steps_bind;
      [apply _ | apply audited_emit; discriminate | intros _; apply steps_ret, _].
  - apply steps_bind; [apply _ | apply audited_readDir | intros [err|]].
    + apply steps_bind; [apply _ | now apply audited_Errorf | intros _].
      now apply audited_Errorf.
    + apply steps_ret, _.
  - intros s.
    destruct (audited_canReadSourceFile filename s) as (b & s1 & E1 & A1 & Hb).
    rewrite (bind_Done _ _ _ _ _ E1). destruct b.
    + destruct (audited_readFuncsAndImportsFromFile filename s1 (eq_sym Hb))
        as (r & s2 & E2 & A2).
      rewrite (bind_Done _ _ _ _ _ E2).
      assert (Hlog : steps audited
                (match r with
                 | Some err =>
                     Errorf (LErrReadingFile filename err) ;; Errorf LContinuing
                 | None => ret tt
                 end)).
      { destruct r as [err|]; [|apply steps_ret, _].
        apply steps_bind; [apply _ | now apply audited_Errorf | intros _].
        now apply audited_Errorf. }
      destruct (Hlog s2) as ([] & s3 & E3 & A3).
      exists tt, s3. split; [exact E3|].
      transitivity s1; [exact A1|]. now transitivity s2.
    + exists tt, s1. split; [reflexivity | exact A1].
Qed.

Lemma audited_collectPhase (fileArgs : list string) :
  steps audited (collectPhase w fileArgs).
Proof.
  apply steps_bind; [apply _ | apply audited_Logf | intros _].
  apply steps_bind; [apply _ | | intros _].
  - apply steps_rangeAll; [apply _ | apply audited_readArg].
  - apply steps_bind; [apply _ | apply steps_getFinder, _ | intros u].
    apply audited_Logf.
Qed.
End AuditWithGopath.

Lemma audited_getCallgraphFromOracle (w : World) :
  steps audited (getCallgraphFromOracle w).
Proof.
  apply steps_bind; [apply _ | apply steps_getFinder, _ | intros u].
  apply steps_bind; [apply _ | apply audited_emit; discriminate | intros _].
  destruct (Query w (pkgsAsArray u)) as [[cg|]|err]; try apply steps_ret, _.
  apply steps_bind; [apply _ | | intros _; apply steps_ret, _].
  apply audited_keep. intros u'. now cbn.
Qed.

Lemma audited_oraclePhase (w : World) : steps audited (oraclePhase w).
Proof.
  apply steps_bind; [apply _ | apply steps_getFinder, _ | intros u].
  apply steps_bind; [apply _ | apply audited_Logf | intros _].
  apply steps_bind; [apply _ | apply audited_getCallgraphFromOracle | intros [err|]].
  - apply steps_bind; [apply _ | now apply audited_Errorf | intros _].
    apply steps_ret, _.
  - apply steps_bind; [apply _ | | intros _].
    + apply audited_keep. intros u'. now cbn.
    + apply steps_bind; [apply _ | apply audited_Logf | intros _].
      apply steps_bind; [apply _ | apply steps_getFinder, _ | intros u'].
      apply steps_bind; [apply _ | apply audited_Logf | intros _].
      apply steps_ret, _.
Qed.

Lemma audited_findUnusedIdents (w : World) : steps audited (findUnusedIdents w).
Proof.
  apply steps_bind; [apply _ | apply steps_getFinder, _ | intros u].
  apply steps_ret, _.
Qed.

(** Every run, whatever its outcome, is [audited]. *)
Lemma Run_audited (w : World) (fileArgs : list string) (s : State) :
  exists r s', Run w fileArgs s = Done r s' /\ audited s s'.
Proof.
  destruct fileArgs as [|a l].
  - destruct (audited_Errorf LMustSupplyFile eq_refl s) as ([] & s1 & E1 & A1).
    exists (None, Some ErrNoFiles), s1. split; [|exact A1].
    rewrite Run_no_args. unfold Errorf, modifyFinder in E1. now injection E1 as <-.
  - destruct (String.eqb_spec (GOPATH w) EmptyString) as [Hgo|Hgo].
    + destruct (audited_Errorf LGopathNotSet eq_refl s) as ([] & s1 & E1 & A1).
      exists (None, Some ErrGopathNotSet), s1. split; [|exact A1].
      rewrite Run_no_gopath by (discriminate || exact Hgo).
      unfold Errorf, modifyFinder in E1. now injection E1 as <-.
    + destruct (Run_after_collection w Hgo (a :: l) s) as (s1 & E1 & _ & ER);
        [discriminate|].
      destruct (audited_collectPhase w Hgo (a :: l) s) as ([] & s1' & E1' & A1).
      assert (s1' = s1) by congruence. subst s1'.
      assert (Htail : steps audited
                (if Idents (finder s) then findUnusedIdents w else oraclePhase w)).
      { destruct (Idents (finder s));
          [apply audited_findUnusedIdents | apply audited_oraclePhase]. }
      destruct (Htail s1) as (r & s2 & E2 & A2).
      exists r, s2. split; [congruence | now transitivity s1].
Qed.

(** X10: [Run] only ever appends to the log, and with [Verbose] off every
    line it writes is one of the error lines written through [Errorf]. *)
Theorem Run_log_append_only (w : World) (fileArgs : list string) (s : State) :
  exists r s' lines,
    Run w fileArgs s = Done r s'
    /\ LogWriter (finder s') = LogWriter (finder s) ++ lines
    /\ (Verbose (finder s) = false -> forallb is_error_line lines = true).
Proof.
  destruct (Run_audited w fileArgs s) as (r & s' & E & A).
  destruct (au_log _ _ A) as (lines & Hl & He).
  now exists r, s', lines.
Qed.

(** X11: the only paths [Run] ever hands to the parser end in ".go" and,
    when the ignore filter is set, do not contain it; this holds for
    arguments and for the files found in directories alike. *)
Theorem Run_parses_only_eligible (w : World) (fileArgs : list string) (s : State) :
  exists r s' evs,
    Run w fileArgs s = Done r s'
    /\ trace s' = trace s ++ evs
    /\ forall p, In (EvParseFile p) evs ->
         (Ignore (finder s) = EmptyString \/ ~ substring_of (Ignore (finder s)) p)
         /\ exists stem, p = stem +:+ ".go".
Proof.
  destruct (Run_audited w fileArgs s) as (r & s' & E & A).
  destruct (au_trace _ _ A) as (evs & Ht & Hp).
  exists r, s', evs. split; [exact E|]. split; [exact Ht|].
  intros p Hin. apply eligible_true. now apply Hp.
Qed.

Lemma oraclePhase_pkgs (w : World) (s1 s2 : State)
    (r : option (list UnusedThing) * option error) :
  oraclePhase w s1 = Done r s2 -> pkgs (finder s2) = pkgs (finder s1).
Proof.
  destruct s1 as [[cg0 ig v ia lw cj id eo sm fb pk fu nf] tr].
  unfold oraclePhase, getCallgraphFromOracle, bind, getFinder, Logf, Errorf,
    modifyFinder, emit, ret, pkgsAsArray.
  cbn [finder trace Verbose pkgs].
  destruct v; cbn [finder trace pkgs set_LogWriter Verbose];
    destruct (Query w (elements pk)) as [[cg|]|err];
    cbn [finder trace Verbose]; intros [= <- <-]; reflexivity.
Qed.

(** X12: in oracle mode the one query lists the packages of the finder as
    [Run] leaves it, each of them once, and these include every package the
    finder held before: packages are never dropped between runs. *)
Theorem Run_query_packages (w : World) (fileArgs : list string) (s : State) :
  fileArgs <> [] -> GOPATH w <> EmptyString -> Idents (finder s) = false ->
  exists r s' evs,
    Run w fileArgs s = Done r s'
    /\ trace s' = trace s ++ evs ++ [EvQuery (pkgsAsArray (finder s'))]
    /\ NoDup (pkgsAsArray (finder s'))
    /\ (forall p, In p (pkgsAsArray (finder s')) <-> p ∈ pkgs (finder s'))
    /\ pkgs (finder s) ⊆ pkgs (finder s').
Proof.
  intros Hargs Hgo Hid.
  destruct (Run_after_collection w Hgo fileArgs s Hargs) as (s1 & _ & C & ER).
  rewrite Hid in ER.
  destruct (oraclePhase_spec w s1) as (r & s2 & E2 & Ht & _).
  destruct (col_trace _ _ C) as (evs & Ht1 & _).
  destruct (Run_audited w fileArgs s) as (r' & s' & E & A).
  assert (Heq : Done r' s' = Done r s2) by congruence.
  injection Heq as -> ->.
  exists r, s2, evs. split; [exact E|].
  unfold pkgsAsArray. rewrite (oraclePhase_pkgs _ _ _ _ E2).
  split; [now rewrite Ht, Ht1, app_assoc|].
  split; [apply NoDup_elements|]. split.
  - intros p. rewrite <- list_elem_of_In. apply elem_of_elements.
  - rewrite <- (oraclePhase_pkgs _ _ _ _ E2). exact (au_pkgs _ _ A).
Qed.

Lemma Run_query_packages_witness :
  exists r s' evs,
    Run Demo.world [Demo.main_go] Demo.start = Done r s'
    /\ trace s' = trace Demo.start ++ evs ++ [EvQuery (pkgsAsArray (finder s'))]
    /\ NoDup (pkgsAsArray (finder s'))
    /\ (forall p, In p (pkgsAsArray (finder s')) <-> p ∈ pkgs (finder s'))
    /\ pkgs (finder Demo.start) ⊆ pkgs (finder s').
Proof.
  apply (Run_query_packages Demo.world [Demo.main_go] Demo.start).
  - discriminate.
  - discriminate.
  - reflexivity.
Defined.

Lemma oraclePhase_failure (w : World) (s1 s2 : State) (err : error) :
  oraclePhase w s1 = Done (None, Some err) s2 ->
  (Query w (pkgsAsArray (finder s1)) = inr err
   \/ (Query w (pkgsAsArray (finder s1)) = inl None /\ err = ErrNoCallgraph))
  /\ exists lines,
       LogWriter (finder s2) = LogWriter (finder s1) ++ lines ++ [LOracleError err].
Proof.
  destruct s1 as [[cg0 ig v ia lw cj id eo sm fb pk fu nf] tr].
  unfold oraclePhase, getCallgraphFromOracle, bind, getFinder, Logf, Errorf,
    modifyFinder, emit, ret, pkgsAsArray.
  cbn [finder trace Verbose pkgs].
  destruct v; cbn [finder trace pkgs set_LogWriter Verbose LogWriter];
    destruct (Query w (elements pk)) as [[cg|]|e];
    cbn [finder trace Verbose LogWriter set_LogWriter];
    intros [= <- <-]; cbn [finder LogWriter]; (split; [auto|]).
  - exists [LRunningCallgraph (elements pk)]. now rewrite <- app_assoc.
  - exists [LRunningCallgraph (elements pk)]. now rewrite <- app_assoc.
  - now exists [].
  - now exists [].
Qed.

(** X13: when [Run] fails in its oracle phase (the query returns an error,
    or a result without call graph), the error it returns is the last line
    of the log, whether [Verbose] is on or off; the [Callgraph] field and the
    caller index are as they were before the run, while the declarations
    collected on the way stay in the finder. *)
Theorem Run_oracle_failure (w : World) (fileArgs : list string) (s s' : State)
    (err : error) :
  fileArgs <> [] -> GOPATH w <> EmptyString -> Idents (finder s) = false ->
  Run w fileArgs s = Done (None, Some err) s' ->
  (exists pkgs, Query w pkgs = inr err
                \/ (Query w pkgs = inl None /\ err = ErrNoCallgraph))
  /\ (exists lines,
        LogWriter (finder s') = LogWriter (finder s) ++ lines ++ [LOracleError err])
  /\ Callgraph (finder s') = Callgraph (finder s)
  /\ filesByCaller (finder s') = filesByCaller (finder s)
  /\ exists added, funcs (finder s') = funcs (finder s) ++ added.
Proof.
  intros Hargs Hgo Hid HR.
  destruct (Run_after_collection w Hgo fileArgs s Hargs) as (s1 & E1 & C & ER).
  rewrite Hid, HR in ER. symmetry in ER.
  destruct (oraclePhase_failure w s1 s' err ER) as (HQ & l2 & Hl2).
  destruct (audited_collectPhase w Hgo fileArgs s) as ([] & s1' & E1' & A1).
  assert (s1' = s1) by congruence. subst s1'.
  destruct (au_log _ _ A1) as (l1 & Hl1 & _).
  destruct (oraclePhase_spec w s1) as (r & s2 & E2 & _ & Hf & HS).
  rewrite ER in E2. injection E2 as <- <-.
  split; [eauto|]. split.
  - exists (l1 ++ l2). now rewrite Hl2, Hl1, <- !app_assoc.
  - destruct (col_funcs _ _ C) as (added & Ha & _).
    assert (HCF : Callgraph (finder s') = Callgraph (finder s1)
                  /\ filesByCaller (finder s') = filesByCaller (finder s1)).
    { destruct (Query w (pkgsAsArray (finder s1))) as [[cg|]|e];
        destruct HS as (Hr & Hc & Hx); [discriminate | auto | auto]. }
    destruct HCF as [Hc Hx].
    rewrite Hc, Hx, (col_Callgraph _ _ C), (col_filesByCaller _ _ C).
    split; [reflexivity|]. split; [reflexivity|].
    exists added. congruence.
Qed.

Lemma Run_oracle_failure_witness :
  (exists pkgs,
     Query DemoMore.world_oracle_down pkgs = inr (LibError "oracle: no packages")
     \/ (Query DemoMore.world_oracle_down pkgs = inl None
         /\ LibError "oracle: no packages" = ErrNoCallgraph))
  /\ (exists lines,
        LogWriter (finder (final_state
          (Run DemoMore.world_oracle_down [Demo.main_go] Demo.start)))
        = LogWriter (finder Demo.start) ++ lines
          ++ [LOracleError (LibError "oracle: no packages")])
  /\ Callgraph (finder (final_state
       (Run DemoMore.world_oracle_down [Demo.main_go] Demo.start)))
     = Callgraph (finder Demo.start)
  /\ filesByCaller (finder (final_state
       (Run DemoMore.world_oracle_down [Demo.main_go] Demo.start)))
     = filesByCaller (finder Demo.start)
  /\ exists added,
       funcs (finder (final_state
         (Run DemoMore.world_oracle_down [Demo.main_go] Demo.start)))
       = funcs (finder Demo.start) ++ added.
Proof.
  apply (Run_oracle_failure DemoMore.world_oracle_down [Demo.main_go] Demo.start).
  - discriminate.
  - discriminate.
  - reflexivity.
  - vm_compute. reflexivity.
Defined.

(** ** Arguments that are not read *)

Lemma Logf_same_data (l : LogLine) (s : State) :
  exists s', Logf l s = Done tt s' /\ trace s' = trace s /\ same_data s s'.
Proof.
  destruct s as [[cg ig v ia lw cj id eo sm fb pk fu nf] tr].
  unfold Logf, modifyFinder, same_data. cbn.
  destruct v; eexists; (split; [reflexivity|]); cbn; auto.
Qed.

Lemma canReadSourceFile_same_data (filename : string) (s : State) :
  exists s',
    canReadSourceFile filename s = Done (eligible (finder s) filename) s'
    /\ trace s' = trace s /\ same_data s s'.
Proof.
  unfold canReadSourceFile, eligible.
  rewrite (bind_Done getFinder _ s s (finder s) eq_refl).
  destruct (negb (String.eqb (Ignore (finder s)) EmptyString)
            && Contains filename (Ignore (finder s))).
  - destruct (Logf_same_data (LIgnoringPath filename) s) as (s' & E & Ht & Hd).
    exists s'. rewrite (bind_Done _ _ _ _ _ E). auto.
  - exists s. unfold same_data.
    destruct (HasSuffix filename ".go"); cbn; repeat split; reflexivity.
Qed.

Lemma readArg_skips (w : World) (a : string) (s : State) :
  statIsDir w a = false -> eligible (finder s) a = false ->
  exists s',
    readArg w a s = Done tt s'
    /\ trace s' = trace s ++ [EvStat a] /\ same_data s s'.
Proof.
  intros Hd Hel. unfold readArg.
  rewrite (bind_Done (isDir w a) _ s (mkState (finder s) (trace s ++ [EvStat a])) false)
    by (unfold isDir, bind, emit, ret; now rewrite Hd).
  destruct (canReadSourceFile_same_data a (mkState (finder s) (trace s ++ [EvStat a])))
    as (s' & E & Ht & Hs).
  cbn [finder] in E. rewrite Hel in E.
  exists s'. rewrite (bind_Done _ _ _ _ _ E). auto.
Qed.

Lemma rangeAll_readArg_skips (w : World) (args : list string) (s : State) :
  Forall (fun a => statIsDir w a = false /\ eligible (finder s) a = false) args ->
  exists s',
    rangeAll (readArg w) args s = Done tt s'
    /\ trace s' = trace s ++ map EvStat args /\ same_data s s'.
Proof.
  revert s. induction args as [|a args IH]; intros s H.
  - exists s. cbn. rewrite app_nil_r. unfold same_data.
    repeat split; reflexivity.
  - inversion H as [|? ? [Hd Hel] Hrest]; subst.
    destruct (readArg_skips w a s Hd Hel) as (s1 & E1 & Ht1 & Hs1).
    destruct (IH s1) as (s2 & E2 & Ht2 & Hs2).
    { eapply Forall_impl; [exact Hrest|]. cbn. intros b [Hb1 Hb2].
      split; [exact Hb1|]. rewrite <- Hb2. apply eligible_Ignore, Hs1. }
    exists s2. cbn [rangeAll]. rewrite (bind_Done _ _ _ _ _ E1).
    split; [exact E2|]. split.
    + rewrite Ht2, Ht1, <- app_assoc. reflexivity.
    + unfold same_data in *. intuition congruence.
Qed.

(** X14: when no argument is a directory and none passes
    [canReadSourceFile], a run in oracle mode looks at each argument once with
    [os.Stat], reads and counts nothing, and still queries the oracle, with
    the packages the finder already had. *)
Theorem Run_nothing_to_read (w : World) (fileArgs : list string) (s : State) :
  Forall (fun a => statIsDir w a = false /\ eligible (finder s) a = false) fileArgs ->
  fileArgs <> [] -> GOPATH w <> EmptyString -> Idents (finder s) = false ->
  exists r s',
    Run w fileArgs s = Done r s'
    /\ trace s' = trace s ++ map EvStat fileArgs ++ [EvQuery (pkgsAsArray (finder s))]
    /\ funcs (finder s') = funcs (finder s)
    /\ numFilesRead (finder s') = numFilesRead (finder s).
Proof.
  intros Hall Hargs Hgo Hid.
  destruct (Run_after_collection w Hgo fileArgs s Hargs) as (s1 & E1 & C & ER).
  rewrite Hid in ER.
  assert (H1 : trace s1 = trace s ++ map EvStat fileArgs /\ same_data s s1).
  { unfold collectPhase in E1.
    destruct (Logf_same_data LCollecting s) as (sa & Ea & Hta & Hsa).
    rewrite (bind_Done _ _ _ _ _ Ea) in E1.
    destruct (rangeAll_readArg_skips w fileArgs sa) as (sb & Eb & Htb & Hsb).
    { eapply Forall_impl; [exact Hall|]. cbn. intros b [Hb1 Hb2].
      split; [exact Hb1|]. rewrite <- Hb2. apply eligible_Ignore, Hsa. }
    rewrite (bind_Done _ _ _ _ _ Eb) in E1.
    rewrite (bind_Done getFinder _ sb sb (finder sb) eq_refl) in E1.
    destruct (Logf_same_data (LParsed (numFilesRead (finder sb))) sb)
      as (sc & Ec & Htc & Hsc).
    rewrite Ec in E1. injection E1 as <-.
    split; [congruence|]. unfold same_data in *. intuition congruence. }
  destruct H1 as [Ht1 (Hf1 & Hp1 & Hn1 & _)].
  destruct (oraclePhase_spec w s1) as (r & s2 & E2 & Ht2 & Hf2 & _).
  assert (Hn2 : numFilesRead (finder s2) = numFilesRead (finder s1)).
  { clear - E2. destruct s1 as [[cg0 ig v ia lw cj id eo sm fb pk fu nf] tr].
    revert E2.
    unfold oraclePhase, getCallgraphFromOracle, bind, getFinder, Logf, Errorf,
      modifyFinder, emit, ret, pkgsAsArray.
    cbn [finder trace Verbose pkgs].
    destruct v; cbn [finder trace pkgs set_LogWriter Verbose];
      destruct (Query w (elements pk)) as [[cg|]|err];
      cbn [finder trace Verbose]; intros [= <- <-]; reflexivity. }
  exists r, s2. split; [congruence|]. split.
  - rewrite Ht2, Ht1. unfold pkgsAsArray. rewrite Hp1, <- app_assoc. reflexivity.
  - split; congruence.
Qed.

Lemma Run_nothing_to_read_witness :
  exists r s',
    Run Demo.world ["notes.txt"; "Makefile"] Demo.start = Done r s'
    /\ trace s'
       = trace Demo.start ++ map EvStat ["notes.txt"; "Makefile"]
         ++ [EvQuery (pkgsAsArray (finder Demo.start))]
    /\ funcs (finder s') = funcs (finder Demo.start)
    /\ numFilesRead (finder s') = numFilesRead (finder Demo.start).
Proof.
  apply (Run_nothing_to_read Demo.world ["notes.txt"; "Makefile"] Demo.start).
  - repeat constructor.
  - discriminate.
  - discriminate.
  - reflexivity.
Defined.

(** ** A directory entry that cannot be examined *)

(** X15: when [filepath.Walk] hands an entry to the callback together with
    an error, the walk of that directory ends there with that error: the
    entry is not read, later entries are not visited, and [Run]'s loop writes
    the error and "Continuing..." to the log and goes on. *)
Theorem readDir_stops_at_walk_error (w : World) (dir : string)
    (pre post : list WalkEntry) (e : WalkEntry) (err : error) (s s1 : State) :
  statIsDir w dir = true ->
  walkEntries w dir = pre ++ e :: post ->
  rangeUntilErr (walkFn w) pre
    (mkState (finder s) (trace s ++ [EvStat dir; EvWalk dir])) = Done None s1 ->
  wErr e = Some err ->
  readDir w dir (mkState (finder s) (trace s ++ [EvStat dir])) = Done (Some err) s1
  /\ readArg w dir s
     = Done tt
         (mkState
            (set_LogWriter
               (LogWriter (finder s1) ++ [LErrReadingDir dir err; LContinuing])
               (finder s1))
            (trace s1)).
Proof.
  intros Hdir Hwalk Hpre He.
  assert (Hread : readDir w dir (mkState (finder s) (trace s ++ [EvStat dir]))
                  = Done (Some err) s1).
  { unfold readDir.
    rewrite (bind_Done (emit (EvWalk dir)) _ _
               (mkState (finder s) (trace s ++ [EvStat dir; EvWalk dir])) tt)
      by (unfold emit; cbn; now rewrite <- app_assoc).
    rewrite Hwalk, (rangeUntilErr_app _ _ _ _ _ Hpre).
    cbn [rangeUntilErr].
    assert (Hfn : walkFn w e s1 = Done (Some err) s1)
      by (unfold walkFn; now rewrite He).
    now rewrite (bind_Done _ _ _ _ _ Hfn). }
  split; [exact Hread|].
  unfold readArg.
  rewrite (bind_Done (isDir w dir) _ s
             (mkState (finder s) (trace s ++ [EvStat dir])) true)
    by (unfold isDir, bind, emit, ret; now rewrite Hdir).
  rewrite (bind_Done _ _ _ _ _ Hread).
  unfold Errorf, bind, modifyFinder. cbn. now rewrite <- app_assoc.
Qed.

Lemma readDir_stops_at_walk_error_witness :
  readDir DemoMore.world_unreadable Demo.lib_dir
    (mkState (finder Demo.start) (trace Demo.start ++ [EvStat Demo.lib_dir]))
  = Done (Some (LibError "lstat: permission denied"))
      (mkState (finder Demo.start) [EvStat Demo.lib_dir; EvWalk Demo.lib_dir]).
Proof.
  apply (readDir_stops_at_walk_error DemoMore.world_unreadable Demo.lib_dir
           [mkWalkEntry Demo.lib_dir true None]
           [mkWalkEntry Demo.b_go false None]
           (mkWalkEntry Demo.a_go false (Some (LibError "lstat: permission denied")))
           (LibError "lstat: permission denied") Demo.start
           (mkState (finder Demo.start) [EvStat Demo.lib_dir; EvWalk Demo.lib_dir]));
    reflexivity.
Defined.

(** ** Runs whose call graph indexes nothing *)

Lemma fold_addEntry_no_separator (cg : list serial.CallGraph)
    (m : gmap string (list string)) :
  Forall (fun e => Contains (serial.Name e) "." = false) cg ->
  fold_left addEntry cg m = m.
Proof.
  intros H. revert m. induction H as [|e cg He _ IH]; intros m; [reflexivity|].
  cbn [fold_left]. rewrite addEntry_short.
  apply afterLastSep_None in He. rewrite He. apply IH.
Qed.

Lemma computeUnusedFuncs_empty_index (uff : UnusedFuncFinder) :
  filesByCaller uff = ∅ -> computeUnusedFuncs uff = funcs uff.
Proof.
  intros H. rewrite computeUnusedFuncs_filter.
  induction (funcs uff) as [|d l IH]; [reflexivity|].
  cbn [List.filter]. unfold isInCG at 1. rewrite H, lookup_empty. cbn.
  now rewrite IH.
Qed.

(** X16: when the finder starts with an empty index and no node of the
    oracle's call graph has a package separator in its name (an empty graph
    in particular), the index stays empty and every collected declaration is
    reported as unused. *)
Theorem Run_reports_all_without_edges (w : World) (fileArgs : list string)
    (s s' : State) (findings : list UnusedThing) (cg : list serial.CallGraph) :
  Idents (finder s) = false ->
  filesByCaller (finder s) = ∅ ->
  Run w fileArgs s = Done (Some findings, None) s' ->
  Callgraph (finder s') = Some cg ->
  Forall (fun e => Contains (serial.Name e) "." = false) cg ->
  filesByCaller (finder s') = ∅ /\ findings = funcs (finder s').
Proof.
  intros Hid Hempty HR Hcg Hall.
  destruct (Run_cases w fileArgs s)
    as [[_ E] | [(_ & _ & E) | (_ & _ & s1 & C & E)]];
    rewrite E in HR; try discriminate.
  rewrite Hid in HR.
  destruct (oraclePhase_spec w s1) as (r & s2 & E2 & _ & _ & HQ).
  rewrite E2 in HR. injection HR as -> ->.
  destruct (Query w _) as [[cg'|]|err]; destruct HQ as (Hr & Hc & Hx);
    try discriminate.
  injection Hr as ->.
  assert (cg' = cg) by congruence. subst cg'.
  assert (Hidx : filesByCaller (finder s') = ∅).
  { rewrite Hx, (col_filesByCaller _ _ C), Hempty.
    now apply fold_addEntry_no_separator. }
  split; [exact Hidx | now apply computeUnusedFuncs_empty_index].
Qed.

Lemma Run_reports_all_without_edges_witness :
  filesByCaller (finder (final_state
    (Run DemoMore.world_no_edges [Demo.main_go] Demo.start))) = ∅
  /\ [mkUnusedThing "zeta" Demo.main_go; mkUnusedThing "alpha" Demo.main_go]
     = funcs (finder (final_state
         (Run DemoMore.world_no_edges [Demo.main_go] Demo.start))).
Proof.
  apply (Run_reports_all_without_edges DemoMore.world_no_edges [Demo.main_go]
           Demo.start _ _ [serial.mkCallGraph "runtime" "-" []]).
  - reflexivity.
  - reflexivity.
  - vm_compute. reflexivity.
  - vm_compute. reflexivity.
  - repeat constructor.
Defined.

Lemma findings_never_excluded_witness :
  ~ (substring_of "Test" "zeta"
     \/ "zeta" = "main" \/ "zeta" = "init" \/ "zeta" = "test").
Proof.
  apply (findings_never_excluded Demo.world [Demo.main_go] Demo.start
           (final_state (Run Demo.world [Demo.main_go] Demo.start))
           [mkUnusedThing "zeta" Demo.main_go; mkUnusedThing "alpha" Demo.main_go]
           (mkUnusedThing "zeta" Demo.main_go)).
  - constructor.
  - reflexivity.
  - vm_compute. reflexivity.
  - left. reflexivity.
Defined.

(** ** Where findings come from *)

Section Post.
Context (R : State -> State -> Prop) `{!PreOrder R}.

Lemma post_ret {A : Type} (a : A) : post R (ret a).
Proof. intros s a' s' [= _ <-]. reflexivity. Qed.

Lemma post_bind {A B : Type} (m : M A) (k : A -> M B) :
  post R m -> (forall a, post R (k a)) -> post R (bind m k).
Proof.
  intros Hm Hk s b s2 H. unfold bind in H.
  destruct (m s) as [a s1|s1] eqn:E; [|discriminate].
  transitivity s1; [exact (Hm _ _ _ E) | exact (Hk _ _ _ _ H)].
Qed.

Lemma post_getFinder : post R getFinder.
Proof. intros s a s' [= _ <-]. reflexivity. Qed.

Lemma post_rangeAll {A : Type} (body : A -> M unit) (xs : list A) :
  (forall x, post R (body x)) -> post R (rangeAll body xs).
Proof.
  intros Hb. induction xs as [|x xs IH]; cbn.
  - apply post_ret.
  - apply post_bind; [apply Hb | intros _; exact IH].
Qed.

Lemma post_rangeUntilErr {A : Type} (body : A -> M (option error)) (xs : list A) :
  (forall x, post R (body x)) -> post R (rangeUntilErr body xs).
Proof.
  intros Hb. induction xs as [|x xs IH]; cbn.
  - apply post_ret.
  - apply post_bind; [apply Hb | intros [e|]; [apply post_ret | exact IH]].
Qed.
End Post.

Section Sourced.
Variable w : World.

Lemma sourced_refl (s : State) : sourced w s s.
Proof.
  exists [], []. rewrite !app_nil_r. split; [reflexivity|].
  split; [reflexivity | intros d []].
Qed.

Lemma sourced_trans (s1 s2 s3 : State) :
  sourced w s1 s2 -> sourced w s2 s3 -> sourced w s1 s3.
Proof.
  intros (a1 & e1 & Hf1 & Ht1 & H1) (a2 & e2 & Hf2 & Ht2 & H2).
  exists (a1 ++ a2), (e1 ++ e2).
  split; [now rewrite Hf2, Hf1, app_assoc|].
  split; [now rewrite Ht2, Ht1, app_assoc|].
  intros d Hd. apply in_app_or in Hd. destruct Hd as [Hd|Hd].
  - destruct (H1 d Hd). split; [assumption | apply in_or_app; now left].
  - destruct (H2 d Hd). split; [assumption | apply in_or_app; now right].
Qed.

#[local] Instance sourced_preorder : PreOrder (sourced w).
Proof. split; [exact sourced_refl | exact sourced_trans]. Qed.

(** A step that leaves the declarations alone and at most extends the
    trace. *)
Lemma sourced_quiet (s s' : State) (evs : list Event) :
  funcs (finder s') = funcs (finder s) -> trace s' = trace s ++ evs ->
  sourced w s s'.
Proof.
  intros Hf Ht. exists [], evs. rewrite app_nil_r.
  split; [exact Hf|]. split; [exact Ht | intros d []].
Qed.

Lemma sourced_modify (f : UnusedFuncFinder -> UnusedFuncFinder) :
  (forall u, funcs (f u) = funcs u) -> post (sourced w) (modifyFinder f).
Proof.
  intros Hf s a s' [= _ <-]. apply (sourced_quiet _ _ []); cbn.
  - apply Hf.
  - now rewrite app_nil_r.
Qed.

Lemma sourced_Logf (l : LogLine) : post (sourced w) (Logf l).
Proof.
  apply sourced_modify. intros [cg ig v ia lw cj id eo sm fb pk fu nf].
  now destruct v.
Qed.

Lemma sourced_Errorf (l : LogLine) : post (sourced w) (Errorf l).
Proof. apply sourced_modify. reflexivity. Qed.

Lemma sourced_emit (e : Event) : post (sourced w) (emit e).
Proof. intros s a s' [= _ <-]. now apply (sourced_quiet _ _ [e]). Qed.

Lemma sourced_canReadSourceFile (filename : string) :
  post (sourced w) (canReadSourceFile filename).
Proof.
  apply post_bind; [apply _ | apply post_getFinder, _ | intros u].
  destruct (_ && _).
  - apply post_bind; [apply _ | apply sourced_Logf | intros _; apply post_ret, _].
  - destruct (negb _); apply post_ret, _.
Qed.

(** Reading a file adds declarations of that file only. *)
Lemma sourced_readFuncsAndImportsFromFile (filename : string) :
  post (sourced w) (readFuncsAndImportsFromFile w filename).
Proof.
  intros s r s' HR.
  assert (Hkeep : forall evs,
            finder s' = finder s -> trace s' = trace s ++ evs -> sourced w s s').
  { intros evs Hf Ht. apply (sourced_quiet _ _ evs); [now rewrite Hf | exact Ht]. }
  assert (Hadd : forall f s0 evs,
            ParseFile w filename = inl f ->
            funcs (finder s0) = funcs (finder s) ->
            trace s0 = trace s ++ EvParseFile filename :: evs ->
            (rangeAll (inspectNode filename) (nodes f) ;;
             modifyFinder
               (fun u => set_numFilesRead (wrap_int (numFilesRead u + 1)) u) ;;
             ret None) s0 = Done r s' ->
            sourced w s s').
  { intros f s0 evs Hp Hf0 Ht0 Htail.
    destruct (read_tail filename f s0) as (s3 & E3 & Hf3 & _ & _ & Ht3).
    rewrite E3 in Htail. injection Htail as _ <-.
    exists (collectedFrom filename f), (EvParseFile filename :: evs).
    split; [now rewrite Hf3, Hf0|]. split; [now rewrite Ht3, Ht0|].
    intros d Hd. apply In_collectedFrom in Hd.
    destruct Hd as (Hfile & Hin & Hne & Hex). split.
    - exists f. rewrite Hfile. auto.
    - left. now rewrite Hfile. }
  rewrite readFuncs_cases in HR. cbv zeta in HR.
  destruct (ParseFile w filename) as [f|err] eqn:Hp.
  - destruct (String.eqb (pkgName f) "main" || IncludeAll (finder s)).
    + destruct (getFullPkgName w filename _) as [[pkg [c|]] s1|s1] eqn:E;
        [| |discriminate].
      * injection HR as _ <-. apply getFullPkgName_Done in E. subst s1.
        apply (Hkeep [EvParseFile filename; EvAbs filename]); cbn;
          [reflexivity | now rewrite <- app_assoc].
      * apply getFullPkgName_Done in E.
        destruct (AddPkg_state pkg s1) as (s2 & E2 & Hf2 & _ & _ & Ht2).
        rewrite E2 in HR. cbn [final_state] in HR.
        apply (Hadd f s2 [EvAbs filename] eq_refl); [| |exact HR].
        -- rewrite Hf2, E. reflexivity.
        -- rewrite Ht2, E. cbn. now rewrite <- app_assoc.
    + apply (Hadd f (mkState (finder s) (trace s ++ [EvParseFile filename])) []
               eq_refl); [reflexivity | reflexivity | exact HR].
  - injection HR as _ <-.
    apply (Hkeep [EvParseFile filename]); reflexivity.
Qed.

Lemma sourced_walkFn (e : WalkEntry) : post (sourced w) (walkFn w e).
Proof.
  unfold walkFn. destruct (wErr e); [apply post_ret, _|].
  destruct (negb (wIsDir e)); [|apply post_ret, _].
  apply post_bind; [apply _ | apply sourced_canReadSourceFile | intros [|]].
  - apply sourced_readFuncsAndImportsFromFile.
  - apply post_ret, _.
Qed.

Lemma sourced_readDir (dirname : string) : post (sourced w) (readDir w dirname).
Proof.
  apply post_bind; [apply _ | apply sourced_emit | intros _].
  apply post_rangeUntilErr; [apply _ | apply sourced_walkFn].
Qed.

Lemma sourced_readArg (filename : string) : post (sourced w) (readArg w filename).
Proof.
  apply post_bind; [apply _ | | intros [|]].
  - apply post_bind; [apply _ | apply sourced_emit | intros _; apply post_ret, _].
  - apply post_bind; [apply _ | apply sourced_readDir | intros [err|]].
    + apply post_bind; [apply _ | apply sourced_Errorf | intros _; apply sourced_Errorf].
    + apply post_ret, _.
  - apply post_bind; [apply _ | apply sourced_canReadSourceFile | intros [|]].
    + apply post_bind;
        [apply _ | apply sourced_readFuncsAndImportsFromFile | intros [err|]].
      * apply post_bind; [apply _ | apply sourced_Errorf | intros _; apply sourced_Errorf].
      * apply post_ret, _.
    + apply post_ret, _.
Qed.

Lemma sourced_oraclePhase : post (sourced w) (oraclePhase w).
Proof.
  intros s r s' H.
  destruct (oraclePhase_spec w s) as (r' & s2 & E & Ht & Hf & _).
  rewrite E in H. injection H as _ <-.
  now apply (sourced_quiet _ _ [EvQuery (pkgsAsArray (finder s))]).
Qed.

Lemma sourced_Run (fileArgs : list string) : post (sourced w) (Run w fileArgs).
Proof.
  unfold Run.
  destruct (Z.of_nat (List.length fileArgs) =? 0)%Z.
  { apply post_bind; [apply _ | apply sourced_Errorf | intros _; apply post_ret, _]. }
  destruct (String.eqb (GOPATH w) EmptyString).
  { apply post_bind; [apply _ | apply sourced_Errorf | intros _; apply post_ret, _]. }
  apply post_bind; [apply _ | apply sourced_Logf | intros _].
  apply post_bind; [apply _ | | intros _].
  { apply post_rangeAll; [apply _ | apply sourced_readArg]. }
  apply post_bind; [apply _ | apply post_getFinder, _ | intros u].
  apply post_bind; [apply _ | apply sourced_Logf | intros _].
  apply post_bind; [apply _ | apply post_getFinder, _ | intros u'].
  destruct (Idents u').
  - apply post_bind; [apply _ | apply post_getFinder, _ | intros u2].
    apply post_ret, _.
  - apply sourced_oraclePhase.
Qed.
End Sourced.

(** X18: a run on a finder that holds no declarations yet (a new finder)
    invents nothing: every finding is a function declared, under a non-empty
    name that is not excluded, in the file the finding names, and that file
    was handed to the parser during this very run. *)
Theorem findings_are_declared (w : World) (fileArgs : list string)
    (s s' : State) (findings : list UnusedThing) (d : UnusedThing) :
  funcs (finder s) = [] ->
  Idents (finder s) = false ->
  Run w fileArgs s = Done (Some findings, None) s' ->
  In d findings ->
  (exists f,
     ParseFile w (File d) = inl f
     /\ In (FuncDecl (Name d)) (nodes f)
     /\ Name d <> EmptyString
     /\ ~ (substring_of "Test" (Name d)
           \/ Name d = "main" \/ Name d = "init" \/ Name d = "test"))
  /\ exists evs, trace s' = trace s ++ evs /\ In (EvParseFile (File d)) evs.
Proof.
  intros Hnil Hid HR Hd.
  destruct (sourced_Run w fileArgs s _ s' HR) as (added & evs & Hf & Ht & Hsrc).
  destruct (Run_findings w fileArgs s s' findings Hid HR) as [-> _].
  apply In_computeUnusedFuncs in Hd. destruct Hd as [Hd _].
  rewrite Hf, Hnil in Hd. cbn [app] in Hd.
  destruct (Hsrc d Hd) as [(f & Hp & Hin & Hne & Hex) Hev].
  split.
  - exists f. split; [exact Hp|]. split; [exact Hin|]. split; [exact Hne|].
    rewrite <- excluded_true. congruence.
  - now exists evs.
Qed.

Lemma findings_are_declared_witness :
  (exists f,
     ParseFile Demo.world Demo.util_go = inl f
     /\ In (FuncDecl "idle") (nodes f)
     /\ "idle" <> EmptyString
     /\ ~ (substring_of "Test" "idle"
           \/ "idle" = "main" \/ "idle" = "init" \/ "idle" = "test"))
  /\ exists evs,
       trace (final_state (Run Demo.world [Demo.main_go; Demo.util_go]
                             (mkState NewUnusedFunctionFinder [])))
       = trace (mkState NewUnusedFunctionFinder []) ++ evs
       /\ In (EvParseFile Demo.util_go) evs.
Proof.
  apply (findings_are_declared Demo.world [Demo.main_go; Demo.util_go]
           (mkState NewUnusedFunctionFinder [])
           (final_state (Run Demo.world [Demo.main_go; Demo.util_go]
                           (mkState NewUnusedFunctionFinder [])))
           [mkUnusedThing "zeta" Demo.main_go; mkUnusedThing "alpha" Demo.main_go;
            mkUnusedThing "idle" Demo.util_go]
           (mkUnusedThing "idle" Demo.util_go)).
  - reflexivity.
  - reflexivity.
  - vm_compute. reflexivity.
  - right. right. left. reflexivity.
Defined.
